(** * The GitHub Actions inventory crawler (scan-github/github_search_actions.py)

    A shallow embedding of the crawler and the properties of its
    classifier, workflow parser, rate-limit gate, organization registry
    and aggregation loop.

    Python values are embedded as follows.
    - [str] is [string]; a character is a code point below 256, which is
      enough for every literal the program compares against.
    - the objects that [json.load], [response.json()] and
      [yaml.safe_load] build are the inductive [value]; numbers are
      integers, and a [dict] is an association list in insertion order
      with pairwise distinct keys.
    - the remote API, the clock and the two files form the [world]; every
      remote call and every sleep is appended to its [trace]. *)

From Stdlib Require Import ZArith List Bool String Ascii Lia PeanoNat.
Import ListNotations.
Open Scope string_scope.
Open Scope list_scope.

(** ** Python string operations used by the classifier *)

Module PyStr.

(** [str.lower] on one code point: the ASCII capitals and the Latin-1
    capitals U+00C0..U+00DE (U+00D7, the multiplication sign, excepted)
    move up by 32. *)
Definition lower_char (c : ascii) : ascii :=
  let n := nat_of_ascii c in
  if (((65 <=? n) && (n <=? 90))
      || ((192 <=? n) && (n <=? 222) && negb (n =? 215)))%nat
  then ascii_of_nat (n + 32) else c.

Fixpoint lower (s : string) : string :=
  match s with
  | EmptyString => EmptyString
  | String c s' => String (lower_char c) (lower s')
  end.

(** The characters [str.strip] removes: U+0009..U+000D, U+001C..U+0020,
    U+0085 and U+00A0. *)
Definition isspace (c : ascii) : bool :=
  let n := nat_of_ascii c in
  (((9 <=? n) && (n <=? 13)) || ((28 <=? n) && (n <=? 32))
   || (n =? 133) || (n =? 160))%nat.

Fixpoint lstrip (s : string) : string :=
  match s with
  | EmptyString => EmptyString
  | String c s' => if isspace c then lstrip s' else s
  end.

Fixpoint rstrip (s : string) : string :=
  match s with
  | EmptyString => EmptyString
  | String c s' =>
      match rstrip s' with
      | EmptyString => if isspace c then EmptyString else String c EmptyString
      | r => String c r
      end
  end.

Definition strip (s : string) : string := rstrip (lstrip s).

(** [s.startswith(p)] *)
Definition startswith (s p : string) : bool := String.prefix p s.

(** [s.split(sep)] for a one-character separator: the pieces between the
    occurrences of [sep], at least one piece. *)
Fixpoint split (sep : ascii) (s : string) : list string :=
  match s with
  | EmptyString => [EmptyString]
  | String c s' =>
      if Ascii.eqb c sep then EmptyString :: split sep s'
      else match split sep s' with
           | [] => [String c EmptyString]
           | p :: ps => String c p :: ps
           end
  end.

(** The text of [s] before the first occurrence of [sep], all of [s] when
    there is none.  This is the reading of "the part before the first
    separator" that the classifier's description uses. *)
Fixpoint before_first (sep : ascii) (s : string) : string :=
  match s with
  | EmptyString => EmptyString
  | String c s' =>
      if Ascii.eqb c sep then EmptyString else String c (before_first sep s')
  end.

End PyStr.

(** ** ActionClassifier: [is_third_party] *)

(** [owner not in own_orgs] on a list of strings. *)
Definition str_in (s : string) (l : list string) : bool :=
  existsb (String.eqb s) l.

(** [is_third_party(action_ref, own_orgs)], lines 191-217.  [true] is
    third-party.  [split("@")[0]] is the first piece of a list that is
    never empty. *)
Definition is_third_party (action_ref : string) (own_orgs : list string) : bool :=
  let action_ref := PyStr.strip (PyStr.lower action_ref) in
  if PyStr.startswith action_ref "actions/" then false
  else
    let parts := PyStr.split "/" (nth 0 (PyStr.split "@" action_ref) "") in
    match parts with
    | [] => false
    | owner :: _ => negb (str_in owner own_orgs) && negb (owner =? "docker")
    end.

(** ** Python values *)

Set Warnings "-register-all".

(** What [json.load], [response.json()] and [yaml.safe_load] return. *)
Inductive value : Type :=
| VNone
| VBool (b : bool)
| VInt (n : Z)
| VStr (s : string)
| VList (xs : list value)
| VDict (kvs : list (value * value)).

(** The exceptions the program can let escape. *)
Inductive exn : Type :=
| AttributeError
| KeyError
| TypeError
| JSONDecodeError
| RequestException
| OverflowError
| ValueError.

(** How a computation ends: with a value, with an uncaught exception,
    with [sys.exit(code)], or still running when the loop bound of the
    model is used up. *)
Inductive outcome (A : Type) : Type :=
| Ret (a : A)
| Raise (e : exn)
| Exit (code : Z)
| OutOfFuel.

Arguments Ret {A} a.
Arguments Raise {A} e.
Arguments Exit {A} code.
Arguments OutOfFuel {A}.

Module Py.

(** [bool(v)], as [if not v] tests it. *)
Definition truthy (v : value) : bool :=
  match v with
  | VNone => false
  | VBool b => b
  | VInt n => negb (n =? 0)%Z
  | VStr s => negb (s =? "")
  | VList xs => match xs with [] => false | _ :: _ => true end
  | VDict kvs => match kvs with [] => false | _ :: _ => true end
  end.

(** The integer a [bool] or [int] stands for in arithmetic and in [==]. *)
Definition as_int (v : value) : option Z :=
  match v with
  | VInt n => Some n
  | VBool b => Some (if b then 1 else 0)%Z
  | _ => None
  end.

(** [a == b] when one side is a scalar: [None], numbers (a [bool] is its
    integer) and strings; a scalar never equals a list or a dict. *)
Definition scalar_eqb (a b : value) : bool :=
  match a, b with
  | VNone, VNone => true
  | VStr s, VStr t => String.eqb s t
  | _, _ =>
      match as_int a, as_int b with
      | Some m, Some n => Z.eqb m n
      | _, _ => false
      end
  end.

(** Lists and dicts cannot be dict keys. *)
Definition hashable (v : value) : bool :=
  match v with
  | VList _ | VDict _ => false
  | _ => true
  end.

(** Lookup of the string key [k] in the pairs of a dict. *)
Fixpoint dict_get (k : string) (kvs : list (value * value)) : option value :=
  match kvs with
  | [] => None
  | (k', v) :: rest =>
      if scalar_eqb k' (VStr k) then Some v else dict_get k rest
  end.

(** [v[k]] for a string key: [KeyError] on a dict without the key,
    [TypeError] on anything that is not a dict. *)
Definition subscript (v : value) (k : string) : outcome value :=
  match v with
  | VDict kvs =>
      match dict_get k kvs with
      | Some x => Ret x
      | None => Raise KeyError
      end
  | _ => Raise TypeError
  end.

(** [v.get(k, default)]: only a dict has the method. *)
Definition get (v : value) (k : string) (default : value) : outcome value :=
  match v with
  | VDict kvs =>
      match dict_get k kvs with
      | Some x => Ret x
      | None => Ret default
      end
  | _ => Raise AttributeError
  end.

(** [k in v] for a dict [v]. *)
Definition contains (kvs : list (value * value)) (k : string) : bool :=
  match dict_get k kvs with Some _ => true | None => false end.

(** The elements [for x in v] visits: the items of a list, the keys of a
    dict, the characters of a string; anything else is not iterable. *)
Definition iterate (v : value) : outcome (list value) :=
  match v with
  | VList xs => Ret xs
  | VDict kvs => Ret (map fst kvs)
  | VStr s => Ret (map (fun c => VStr (String c EmptyString)) (list_ascii_of_string s))
  | _ => Raise TypeError
  end.

(** [v.lower()]: only a string has the method. *)
Definition lower (v : value) : outcome string :=
  match v with
  | VStr s => Ret (PyStr.lower s)
  | _ => Raise AttributeError
  end.

(** [d[k] = x] on a dict held as pairs in insertion order: an equal key
    keeps its place and gets the new value, a new key goes last. *)
Fixpoint assoc_set {X : Type} (k : value) (x : X) (d : list (value * X))
  : list (value * X) :=
  match d with
  | [] => [(k, x)]
  | (k', x') :: rest =>
      if scalar_eqb k' k then (k', x) :: rest
      else (k', x') :: assoc_set k x rest
  end.

Definition setitem {X : Type} (k : value) (x : X) (d : list (value * X))
  : outcome (list (value * X)) :=
  if hashable k then Ret (assoc_set k x d) else Raise TypeError.

(** [d[k]] read back, for any scalar key. *)
Fixpoint assoc_get {X : Type} (k : value) (d : list (value * X)) : option X :=
  match d with
  | [] => None
  | (k', x) :: rest => if scalar_eqb k' k then Some x else assoc_get k rest
  end.

(** Sequencing of computations that can raise. *)
Definition obind {A B : Type} (o : outcome A) (f : A -> outcome B) : outcome B :=
  match o with
  | Ret a => f a
  | Raise e => Raise e
  | Exit c => Exit c
  | OutOfFuel => OutOfFuel
  end.

(** [[f(x) for x in xs]] *)
Fixpoint comprehension {A B : Type} (f : A -> outcome B) (xs : list A)
  : outcome (list B) :=
  match xs with
  | [] => Ret []
  | x :: rest =>
      obind (f x) (fun y => obind (comprehension f rest) (fun ys => Ret (y :: ys)))
  end.

End Py.

(** ** The world the crawler runs in *)

(** The remote calls, by endpoint.  The organization, repository name and
    download reference are the values the program formats into the URL. *)
Inductive request : Type :=
| GetRateLimit
| GetUserOrgs
| GetOrgRepos (org : value) (page : Z)
| GetWorkflows (org repo_name : value)
| GetRaw (download_url : value).

(** What the program does to the outside, oldest last. *)
Inductive event : Type :=
| EvRequest (r : request)
| EvSleep (seconds : Z).

(** A response: its status code, and what [response.json()] (for the API
    endpoints) or [yaml.safe_load(response.text)] (for a raw download)
    makes of its body, [None] when that call raises. *)
Record response : Type := mkResponse {
  status_code : Z;
  parsed : option value
}.

(** The remote side and the clock, both as functions of everything that
    happened before.  [respond] gives [None] when [requests.get] itself
    raises. *)
Record remote : Type := mkRemote {
  respond : list event -> request -> option response;
  now : list event -> Z
}.

(** One entry of the inventory: [{workflow_file, uses_reference,
    is_third_party}]. *)
Record entry : Type := mkEntry {
  workflow_file : value;
  uses_reference : value;
  third_party : bool
}.

(** The report: organization -> repository -> entries, each level in
    insertion order. *)
Definition org_report : Type := list (value * list entry).
Definition report : Type := list (value * org_report).

(** One element of [fetch_workflow_files]'s result. *)
Record workflow : Type := mkWorkflow {
  name : value;
  path : value;
  download_url : value
}.

(** The local state: the credential from the environment, the
    organization cache ([None]: no file; [Some None]: a file that
    [json.load] rejects; [Some (Some v)]: a file that loads as [v]), the
    report file once written, and the trace, newest event first. *)
Record world : Type := mkWorld {
  github_token : option string;
  org_file : option (option value);
  results_file : option report;
  trace : list event
}.

Definition log (e : event) (w : world) : world :=
  mkWorld (github_token w) (org_file w) (results_file w) (e :: trace w).

Definition set_org_file (v : value) (w : world) : world :=
  mkWorld (github_token w) (Some (Some v)) (results_file w) (trace w).

Definition set_results_file (r : report) (w : world) : world :=
  mkWorld (github_token w) (org_file w) (Some r) (trace w).

(** ** Stateful computations *)

Definition M (A : Type) : Type := world -> world * outcome A.

Definition ret {A : Type} (a : A) : M A := fun w => (w, Ret a).

Definition lift {A : Type} (o : outcome A) : M A := fun w => (w, o).

Definition bind {A B : Type} (m : M A) (f : A -> M B) : M B :=
  fun w =>
    match m w with
    | (w', Ret a) => f a w'
    | (w', Raise e) => (w', Raise e)
    | (w', Exit c) => (w', Exit c)
    | (w', OutOfFuel) => (w', OutOfFuel)
    end.

Declare Scope crawl_scope.
Delimit Scope crawl_scope with crawl.
Notation "x <- m ;; k" := (bind m (fun x => k))
  (at level 100, m at next level, right associativity) : crawl_scope.
Notation "m ;; k" := (bind m (fun _ => k))
  (at level 100, right associativity) : crawl_scope.
Open Scope crawl_scope.

(** ** WorkflowParser, the part after the download (lines 169-188) *)

(** [for step in steps]: a step that is a dict with a [uses] key appends
    the value at that key. *)
Fixpoint steps_loop (steps : list value) (uses_references : list value)
  : list value :=
  match steps with
  | [] => uses_references
  | step :: rest =>
      match step with
      | VDict sd =>
          match Py.dict_get "uses" sd with
          | Some u => steps_loop rest (uses_references ++ [u])
          | None => steps_loop rest uses_references
          end
      | _ => steps_loop rest uses_references
      end
  end.

(** [for job_name, job_data in jobs.items()]: [job_data.get] is called
    whatever [job_data] is. *)
Fixpoint jobs_loop (jobs : list (value * value)) (uses_references : list value)
  : outcome (list value) :=
  match jobs with
  | [] => Ret uses_references
  | (job_name, job_data) :: rest =>
      Py.obind (Py.get job_data "steps" (VList []))
        (fun steps =>
           match steps with
           | VList ss => jobs_loop rest (steps_loop ss uses_references)
           | _ => jobs_loop rest uses_references
           end)
  end.

(** From [if not isinstance(workflow_data, dict)] to the final
    [return uses_references]. *)
Definition extract_uses (workflow_data : value) : outcome (list value) :=
  match workflow_data with
  | VDict wd =>
      let jobs :=
        match Py.dict_get "jobs" wd with
        | Some j => j
        | None => VDict []
        end in
      match jobs with
      | VDict js => jobs_loop js []
      | _ => Ret []
      end
  | _ => Ret []
  end.

(** ** WorkflowLocator, the loop over the directory listing *)

(** [for item in directory_items], lines 141-147. *)
Fixpoint items_loop (items : list value) (files : list workflow)
  : outcome (list workflow) :=
  match items with
  | [] => Ret files
  | item :: rest =>
      Py.obind (Py.subscript item "type") (fun ty =>
        if Py.scalar_eqb ty (VStr "file") then
          Py.obind (Py.subscript item "name") (fun n =>
          Py.obind (Py.subscript item "path") (fun p =>
          Py.obind (Py.subscript item "download_url") (fun u =>
            items_loop rest (files ++ [mkWorkflow n p u]))))
        else items_loop rest files)
  end.

(** ** The crawler *)

(** The longest sleep [time.sleep] accepts, in seconds: the largest
    number of seconds whose nanoseconds fit a signed 64-bit integer. *)
Definition sleep_max : Z := 9223372036.

Section Crawler.

Variable api : remote.

(** [requests.get(url, ...)]: the call is recorded, then answered from
    what happened before it. *)
Definition requests_get (r : request) : M response :=
  fun w =>
    match respond api (trace w) r with
    | Some resp => (log (EvRequest r) w, Ret resp)
    | None => (log (EvRequest r) w, Raise RequestException)
    end.

(** [response.json()] *)
Definition json (r : response) : M value :=
  match parsed r with
  | Some v => ret v
  | None => lift (Raise JSONDecodeError)
  end.

(** [int(time.time())] *)
Definition time_time : M Z := fun w => (w, Ret (now api (trace w))).

(** [time.sleep(seconds)] for an integer: CPython keeps the duration as
    a 64-bit count of nanoseconds and raises [OverflowError] when the
    seconds do not fit; a negative duration raises [ValueError]. *)
Definition time_sleep (seconds : Z) : M unit :=
  fun w =>
    if ((sleep_max <? seconds) || (seconds <? - sleep_max))%Z
    then (w, Raise OverflowError)
    else if (seconds <? 0)%Z then (w, Raise ValueError)
    else (log (EvSleep seconds) w, Ret tt).

(** [check_rate_limit()], lines 31-43. *)
Definition check_rate_limit : M (value * value) :=
  response <- requests_get GetRateLimit ;;
  if (status_code response =? 200)%Z then
    data <- json response ;;
    rate <- lift (Py.subscript data "rate") ;;
    remaining <- lift (Py.subscript rate "remaining") ;;
    reset_time <- lift (Py.subscript rate "reset") ;;
    ret (remaining, reset_time)
  else ret (VInt 0, VInt 0).

(** [enforce_rate_limit()], lines 46-53. *)
Definition enforce_rate_limit : M unit :=
  quota <- check_rate_limit ;;
  let (remaining, reset_time) := quota in
  if Py.scalar_eqb remaining (VInt 0) then
    t <- time_time ;;
    match Py.as_int reset_time with
    | Some reset => time_sleep (Z.max (reset - t) 65)
    | None => lift (Raise TypeError)
    end
  else ret tt.

(** [fetch_orgs()], lines 56-68. *)
Definition fetch_orgs : M value :=
  response <- requests_get GetUserOrgs ;;
  if (status_code response =? 200)%Z then
    body <- json response ;;
    items <- lift (Py.iterate body) ;;
    orgs <- lift (Py.comprehension (fun org => Py.subscript org "login") items) ;;
    (fun w => (set_org_file (VList orgs) w, Ret tt)) ;;
    ret (VList orgs)
  else ret (VList []).

(** [load_orgs()], lines 71-82. *)
Definition load_orgs : M value :=
  fun w =>
    match org_file w with
    | None => fetch_orgs w
    | Some (Some v) => (w, Ret v)
    | Some None => fetch_orgs w
    end.

(** The [while True] loop of [fetch_all_repos], lines 94-113; [fuel]
    bounds the number of pages. *)
Fixpoint fetch_all_repos_loop (fuel : nat) (org : value) (repos : list value)
  (page : Z) : M (list value) :=
  match fuel with
  | O => lift OutOfFuel
  | S fuel' =>
      enforce_rate_limit ;;
      response <- requests_get (GetOrgRepos org page) ;;
      if negb (status_code response =? 200)%Z then ret repos
      else
        batch <- json response ;;
        if negb (Py.truthy batch) then ret repos
        else
          items <- lift (Py.iterate batch) ;;
          fetch_all_repos_loop fuel' org (repos ++ items) (page + 1)%Z
  end.

(** [fetch_all_repos(org)], lines 85-115. *)
Definition fetch_all_repos (fuel : nat) (org : value) : M (list value) :=
  fetch_all_repos_loop fuel org [] 1%Z.

(** [fetch_workflow_files(org, repo_name)], lines 118-148. *)
Definition fetch_workflow_files (org repo_name : value) : M (list workflow) :=
  enforce_rate_limit ;;
  response <- requests_get (GetWorkflows org repo_name) ;;
  if (status_code response =? 404)%Z then ret []
  else if negb (status_code response =? 200)%Z then ret []
  else
    directory_items <- json response ;;
    match directory_items with
    | VList items => lift (items_loop items [])
    | _ => ret []
    end.

(** [parse_workflow_file(download_url)], lines 151-188.  A body that
    [yaml.safe_load] rejects is caught by the [try]. *)
Definition parse_workflow_file (download_url : value) : M (list value) :=
  enforce_rate_limit ;;
  response <- requests_get (GetRaw download_url) ;;
  if negb (status_code response =? 200)%Z then ret []
  else
    match parsed response with
    | None => ret []
    | Some workflow_data => lift (extract_uses workflow_data)
    end.

(** [is_third_party(action_ref, my_orgs_lower)] as [main] calls it, on the
    raw value of a [uses] key: [action_ref.lower()] exists on strings
    only. *)
Definition classify (action_ref : value) (own_orgs : list string) : outcome bool :=
  match action_ref with
  | VStr s => Ret (is_third_party s own_orgs)
  | _ => Raise AttributeError
  end.

(** [for action_ref in uses_list], lines 267-273. *)
Fixpoint refs_loop (own_orgs : list string) (wf : workflow)
  (uses_list : list value) (repo_inventory : list entry) : outcome (list entry) :=
  match uses_list with
  | [] => Ret repo_inventory
  | action_ref :: rest =>
      Py.obind (classify action_ref own_orgs) (fun flag =>
        refs_loop own_orgs wf rest
          (repo_inventory ++ [mkEntry (path wf) action_ref flag]))
  end.

(** [for wf in workflow_files], lines 265-273. *)
Fixpoint files_loop (own_orgs : list string) (workflow_files : list workflow)
  (repo_inventory : list entry) : M (list entry) :=
  match workflow_files with
  | [] => ret repo_inventory
  | wf :: rest =>
      uses_list <- parse_workflow_file (download_url wf) ;;
      inventory <- lift (refs_loop own_orgs wf uses_list repo_inventory) ;;
      files_loop own_orgs rest inventory
  end.

(** [for repo in repos], lines 257-276. *)
Fixpoint repos_loop (own_orgs : list string) (org : value) (repos : list value)
  (org_results : org_report) : M org_report :=
  match repos with
  | [] => ret org_results
  | repo :: rest =>
      repo_name <- lift (Py.subscript repo "name") ;;
      workflow_files <- fetch_workflow_files org repo_name ;;
      match workflow_files with
      | [] => repos_loop own_orgs org rest org_results
      | _ :: _ =>
          repo_inventory <- files_loop own_orgs workflow_files [] ;;
          match repo_inventory with
          | [] => repos_loop own_orgs org rest org_results
          | _ :: _ =>
              org_results' <- lift (Py.setitem repo_name repo_inventory org_results) ;;
              repos_loop own_orgs org rest org_results'
          end
      end
  end.

(** [for org in orgs], lines 250-279. *)
Fixpoint orgs_loop (fuel : nat) (own_orgs : list string) (orgs : list value)
  (results : report) : M report :=
  match orgs with
  | [] => ret results
  | org :: rest =>
      repos <- fetch_all_repos fuel org ;;
      match repos with
      | [] => orgs_loop fuel own_orgs rest results
      | _ :: _ =>
          org_results <- repos_loop own_orgs org repos [] ;;
          match org_results with
          | [] => orgs_loop fuel own_orgs rest results
          | _ :: _ =>
              results' <- lift (Py.setitem org org_results results) ;;
              orgs_loop fuel own_orgs rest results'
          end
      end
  end.

(** [if not GITHUB_TOKEN] *)
Definition token_missing (w : world) : bool :=
  match github_token w with
  | None => true
  | Some t => (t =? "")
  end.

(** [main()], lines 220-296; the console summary after the report is
    written has no effect on the world. *)
Definition main (fuel : nat) : M unit :=
  fun w =>
    if token_missing w then (w, Exit 1)
    else
      (orgs <- load_orgs ;;
       if negb (Py.truthy orgs) then lift (Exit 1)
       else
         org_list <- lift (Py.iterate orgs) ;;
         my_orgs_lower <- lift (Py.comprehension Py.lower org_list) ;;
         results <- orgs_loop fuel my_orgs_lower org_list [] ;;
         (fun w' => (set_results_file results w', Ret tt))) w.

End Crawler.

(** The exit status of the process: 0 after a normal return, the argument
    of [sys.exit], 1 after an uncaught exception; none while running. *)
Definition exit_status (o : outcome unit) : option Z :=
  match o with
  | Ret _ => Some 0%Z
  | Exit c => Some c
  | Raise _ => Some 1%Z
  | OutOfFuel => None
  end.

(** ** A concrete run: organization [acme], repository [api], one workflow *)

Module Demo.

Definition quota (remaining reset : Z) : response :=
  mkResponse 200
    (Some (VDict [(VStr "rate",
                   VDict [(VStr "remaining", VInt remaining);
                          (VStr "reset", VInt reset)])])).

Definition ci_jobs : list (value * value) :=
  [(VStr "build",
    VDict [(VStr "runs-on", VStr "ubuntu-latest");
           (VStr "steps",
            VList [VDict [(VStr "uses", VStr "actions/checkout@v3")];
                   VDict [(VStr "run", VStr "make test")];
                   VDict [(VStr "uses", VStr "randomuser/cool-action@v1")]])])].

Definition ci_fields : list (value * value) :=
  [(VStr "name", VStr "CI"); (VStr "jobs", VDict ci_jobs)].

Definition ci_yml : value := VDict ci_fields.

Definition listing : value :=
  VList [VDict [(VStr "name", VStr "ci.yml");
                (VStr "path", VStr ".github/workflows/ci.yml");
                (VStr "type", VStr "file");
                (VStr "download_url", VStr "https://raw.example/acme/api/ci.yml")]].

(** A server with plenty of quota, one repository [api] on the first page
    of every organization, and [ci_yml] as its only workflow. *)
Definition server_with (doc : option value) : remote :=
  mkRemote
    (fun _ r =>
       match r with
       | GetRateLimit => Some (quota 4999 1700000000)
       | GetUserOrgs => Some (mkResponse 200 (Some (VList [VDict [(VStr "login", VStr "acme")]])))
       | GetOrgRepos _ page =>
           if (page =? 1)%Z
           then Some (mkResponse 200 (Some (VList [VDict [(VStr "name", VStr "api")]])))
           else Some (mkResponse 200 (Some (VList [])))
       | GetWorkflows _ _ => Some (mkResponse 200 (Some listing))
       | GetRaw _ => Some (mkResponse 200 doc)
       end)
    (fun _ => 1699999000%Z).

Definition server : remote := server_with (Some ci_yml).

(** A credential and a cache file holding [["acme"]]. *)
Definition start : world :=
  mkWorld (Some "secret") (Some (Some (VList [VStr "acme"]))) None [].

(** The same cache file, no credential. *)
Definition start_no_token : world :=
  mkWorld None (Some (Some (VList [VStr "acme"]))) None [].

(** A credential and no cache file. *)
Definition start_no_cache : world :=
  mkWorld (Some "secret") None None [].

(** A server whose quota is always exhausted. *)
Definition throttled_server : remote :=
  mkRemote (fun _ _ => Some (quota 0 1700000000)) (fun _ => 1699999000%Z).

(** A server with plenty of quota whose repository listing always fails. *)
Definition failing_server : remote :=
  mkRemote
    (fun _ r =>
       match r with
       | GetRateLimit => Some (quota 4999 1700000000)
       | _ => Some (mkResponse 404 None)
       end)
    (fun _ => 1699999000%Z).

(** The organization names [a], [aa], [aaa], ..., [n] of them. *)
Definition org_names (n : nat) : list value :=
  map (fun k => VStr (string_of_list_ascii (repeat "a"%char (S k)))) (seq 0 n).

(** A credential and a cache file holding the list [orgs]. *)
Definition start_with (orgs : list value) : world :=
  mkWorld (Some "secret") (Some (Some (VList orgs))) None [].

(** A workflow whose only job has no body: [jobs: {build: null}]. *)
Definition empty_job_yml : value :=
  VDict [(VStr "jobs", VDict [(VStr "build", VNone)])].

End Demo.

(** ** The parser's result, as the description words it *)

Module ParserSpec.

(** A step that is a mapping with a [uses] key. *)
Definition carries_uses (step : value) : bool :=
  match step with
  | VDict sd => Py.contains sd "uses"
  | _ => false
  end.

(** A step that is a mapping with a [run] key and no [uses] key. *)
Definition run_only (step : value) : bool :=
  match step with
  | VDict sd => Py.contains sd "run" && negb (Py.contains sd "uses")
  | _ => false
  end.

(** The reference a step contributes: the raw value at [uses], or
    nothing. *)
Definition uses_of_step (step : value) : list value :=
  match step with
  | VDict sd =>
      match Py.dict_get "uses" sd with
      | Some u => [u]
      | None => []
      end
  | _ => []
  end.

(** The [steps] sequence of a job; empty when the job has none. *)
Definition job_steps (job_data : value) : list value :=
  match job_data with
  | VDict jd =>
      match Py.dict_get "steps" jd with
      | Some (VList ss) => ss
      | _ => []
      end
  | _ => []
  end.

(** Every step of the document: jobs in iteration order, the steps of one
    job in sequence order. *)
Definition all_steps (jobs : list (value * value)) : list value :=
  flat_map (fun job => job_steps (snd job)) jobs.

(** A job that is a mapping with a [steps] sequence. *)
Definition has_steps (job_data : value) : bool :=
  match job_data with
  | VDict jd =>
      match Py.dict_get "steps" jd with
      | Some (VList _) => true
      | _ => false
      end
  | _ => false
  end.

Definition is_dict (v : value) : bool :=
  match v with
  | VDict _ => true
  | _ => false
  end.

End ParserSpec.

(** ** The gate and the trace, for stating the properties *)

(** What [check_rate_limit] makes of the response to the quota query. *)
Definition read_quota (resp : response) : outcome (value * value) :=
  if (status_code resp =? 200)%Z then
    match parsed resp with
    | None => Raise JSONDecodeError
    | Some data =>
        Py.obind (Py.subscript data "rate") (fun rate =>
        Py.obind (Py.subscript rate "remaining") (fun remaining =>
        Py.obind (Py.subscript rate "reset") (fun reset_time =>
          Ret (remaining, reset_time))))
    end
  else Ret (VInt 0, VInt 0).

(** The quota query reports no remaining calls: [remaining == 0], which
    includes the [(0, 0)] of a non-success response. *)
Definition exhausted (resp : response) : bool :=
  match read_quota resp with
  | Ret (remaining, _) => Py.scalar_eqb remaining (VInt 0)
  | _ => false
  end.

(** The sleep that the answer [resp] to the quota query issued on the
    trace [before] asks for: [max(reset_time - now, 65)] when no calls
    remain and the reset time is a number, none otherwise. *)
Definition sleep_length (api : remote) (before : list event) (resp : response)
  : option Z :=
  match read_quota resp with
  | Ret (remaining, reset_time) =>
      if Py.scalar_eqb remaining (VInt 0) then
        match Py.as_int reset_time with
        | Some reset =>
            Some (Z.max (reset - now api (EvRequest GetRateLimit :: before)) 65)
        | None => None
        end
      else None
  | _ => None
  end.

(** What [enforce_rate_limit] does after the quota query issued on the
    trace [before]: [Ret None] is no sleep, [Ret (Some t)] a sleep of [t]
    seconds, [Raise OverflowError] a sleep that [time.sleep] refuses as
    too long. *)
Definition gate_action (api : remote) (before : list event) : outcome (option Z) :=
  match respond api before GetRateLimit with
  | None => Raise RequestException
  | Some resp =>
      Py.obind (read_quota resp) (fun quota =>
        if Py.scalar_eqb (fst quota) (VInt 0) then
          match Py.as_int (snd quota) with
          | Some reset =>
              let t := Z.max (reset - now api (EvRequest GetRateLimit :: before)) 65 in
              if (sleep_max <? t)%Z then Raise OverflowError else Ret (Some t)
          | None => Raise TypeError
          end
        else Ret None)
  end.

(** The quota query, or the quota query and the sleep it caused, are the
    newest events of [tr]. *)
Definition checked_before (tr : list event) : bool :=
  match tr with
  | EvRequest GetRateLimit :: _ => true
  | EvSleep _ :: EvRequest GetRateLimit :: _ => true
  | _ => false
  end.

(** Every request that [guarded] selects comes directly after a quota
    check. *)
Fixpoint gated (guarded : request -> bool) (tr : list event) : bool :=
  match tr with
  | [] => true
  | EvRequest r :: before =>
      (if guarded r then checked_before before else true) && gated guarded before
  | EvSleep _ :: before => gated guarded before
  end.

(** Every remote call except the quota query itself. *)
Definition throttled_call (r : request) : bool :=
  match r with
  | GetRateLimit => false
  | _ => true
  end.

(** The calls of the crawl: a repository page, a workflows directory, a
    raw workflow file. *)
Definition crawl_call (r : request) : bool :=
  match r with
  | GetOrgRepos _ _ | GetWorkflows _ _ | GetRaw _ => true
  | _ => false
  end.

(** Every sleep in [tr] comes directly after a quota query whose answer
    was exhausted, and lasts what that answer asks for,
    [max(reset_time - now, 65)] seconds, which is at least 65. *)
Fixpoint sleeps_follow_exhaustion (api : remote) (tr : list event) : Prop :=
  match tr with
  | [] => True
  | EvSleep t :: before =>
      (65 <= t)%Z
      /\ match before with
         | EvRequest GetRateLimit :: older =>
             match respond api older GetRateLimit with
             | Some resp =>
                 exhausted resp = true /\ sleep_length api older resp = Some t
             | None => False
             end
         | _ => False
         end
      /\ sleeps_follow_exhaustion api before
  | EvRequest _ :: before => sleeps_follow_exhaustion api before
  end.

(** The number of crawl calls in a trace. *)
Definition crawl_calls (tr : list event) : nat :=
  List.length (filter (fun e => match e with
                                | EvRequest r => crawl_call r
                                | EvSleep _ => false
                                end) tr).

(** A computation keeps a property of the world, however it ends. *)
Definition keeps (I : world -> Prop) {A : Type} (m : M A) : Prop :=
  forall w, I w -> I (fst (m w)).

(** The soft throttle as a property of runs: whenever a run issues more
    than [N] crawl calls, it sleeps at some point. *)
Definition cooldown_every (N : nat) : Prop :=
  forall (api : remote) (fuel : nat) (w : world),
    trace w = [] ->
    N < crawl_calls (trace (fst (main api fuel w))) ->
    exists t, In (EvSleep t) (trace (fst (main api fuel w))).

(** ** The report, for stating the properties *)

(** Every repository key of one organization holds at least one entry. *)
Definition org_sparse (org_results : org_report) : Prop :=
  Forall (fun p => snd p <> []) org_results.

(** Every organization key holds at least one repository, and every
    repository key at least one entry. *)
Definition sparse (r : report) : Prop :=
  Forall (fun p => snd p <> [] /\ org_sparse (snd p)) r.

(** The entries the report holds for a pair; none when a key is absent. *)
Definition entries_of (r : report) (org repo : value) : list entry :=
  match Py.assoc_get org r with
  | Some org_results =>
      match Py.assoc_get repo org_results with
      | Some entries => entries
      | None => []
      end
  | None => []
  end.

(** The report has a key for the pair. *)
Definition has_pair (r : report) (org repo : value) : bool :=
  match Py.assoc_get org r with
  | Some org_results =>
      match Py.assoc_get repo org_results with
      | Some _ => true
      | None => false
      end
  | None => false
  end.

(** A computation that returns, returns a value with the property. *)
Definition yields {A : Type} (Q : A -> Prop) (m : M A) : Prop :=
  forall w w' a, m w = (w', Ret a) -> Q a.

(** ** Runs and servers, for stating the exit status *)

(** The process ended with a non-zero status. *)
Definition failed (o : outcome unit) : Prop :=
  exists c, exit_status o = Some c /\ c <> 0%Z.

(** [load_orgs] would return a non-empty organization list. *)
Definition orgs_resolvable (api : remote) (w : world) : bool :=
  match snd (load_orgs api w) with
  | Ret orgs => Py.truthy orgs
  | _ => false
  end.

Definition is_str (v : value) : bool :=
  match v with
  | VStr _ => true
  | _ => false
  end.

(** The payload shapes the program reads without further checks. *)
Module Shape.

(** A quota answer, to the query issued on the trace [before], that
    [check_rate_limit] can read and that, when the quota is used up, has
    a numeric reset time near enough for [time.sleep] to accept the
    wait. *)
Definition quota_ok (api : remote) (before : list event) (resp : response) : bool :=
  match read_quota resp with
  | Ret (remaining, reset_time) =>
      if Py.scalar_eqb remaining (VInt 0)
      then match Py.as_int reset_time with
           | Some reset =>
               (Z.max (reset - now api (EvRequest GetRateLimit :: before)) 65
                <=? sleep_max)%Z
           | None => false
           end
      else true
  | _ => false
  end.

(** A download reference that [requests.get] takes for a URL. *)
Definition is_url (v : value) : bool :=
  match v with
  | VStr s => String.prefix "http://" s || String.prefix "https://" s
  | _ => false
  end.

(** A repository object: a mapping with a scalar [name]. *)
Definition repo_ok (repo : value) : bool :=
  match repo with
  | VDict d =>
      match Py.dict_get "name" d with
      | Some repo_name => Py.hashable repo_name
      | None => false
      end
  | _ => false
  end.

(** A page of repositories: any failure status, or a success whose body
    is a list of repository objects. *)
Definition page_ok (resp : response) : bool :=
  negb (status_code resp =? 200)%Z
  || match parsed resp with
     | Some (VList batch) => forallb repo_ok batch
     | _ => false
     end.

(** A page that ends the pagination: a failure status or an empty list. *)
Definition last_page (resp : response) : bool :=
  negb (status_code resp =? 200)%Z
  || match parsed resp with
     | Some (VList []) => true
     | _ => false
     end.

(** A directory item: a mapping with a [type], and with [name], [path]
    and [download_url] when it is a file. *)
Definition item_ok (item : value) : bool :=
  match item with
  | VDict d =>
      match Py.dict_get "type" d with
      | Some ty =>
          if Py.scalar_eqb ty (VStr "file")
          then Py.contains d "name" && Py.contains d "path"
               && Py.contains d "download_url"
          else true
      | None => false
      end
  | _ => false
  end.

(** A file item carries a URL as its download reference. *)
Definition file_url_ok (item : value) : bool :=
  match Py.subscript item "type", Py.subscript item "download_url" with
  | Ret ty, Ret u => if Py.scalar_eqb ty (VStr "file") then is_url u else true
  | _, _ => true
  end.

(** A directory listing: any failure status, or a success whose body is
    JSON, a list of directory items whose files have URLs when it is a
    list. *)
Definition listing_ok (resp : response) : bool :=
  negb (status_code resp =? 200)%Z
  || match parsed resp with
     | Some (VList items) => forallb item_ok items && forallb file_url_ok items
     | Some _ => true
     | None => false
     end.

(** A workflow document: when it is a mapping whose [jobs] is a mapping,
    every job is a mapping and every [uses] value is a string. *)
Definition doc_ok (doc : value) : bool :=
  match doc with
  | VDict wd =>
      match Py.dict_get "jobs" wd with
      | Some (VDict jobs) =>
          forallb (fun job => ParserSpec.is_dict (snd job)) jobs
          && forallb is_str
               (flat_map ParserSpec.uses_of_step (ParserSpec.all_steps jobs))
      | _ => true
      end
  | _ => true
  end.

(** A raw download: any failure status, a body that does not parse, or a
    workflow document. *)
Definition raw_ok (resp : response) : bool :=
  negb (status_code resp =? 200)%Z
  || match parsed resp with
     | Some doc => doc_ok doc
     | None => true
     end.

End Shape.

(** A server that always answers (a download, when asked at a URL), with
    payloads of the expected shapes whenever it answers with success,
    whose quota answers never ask for a longer wait than [time.sleep]
    accepts, and whose repository listings end after at most [pages]
    pages.  The status codes are arbitrary. *)
Record well_behaved (api : remote) (pages : nat) : Prop := {
  wb_quota : forall h,
    exists resp, respond api h GetRateLimit = Some resp
                 /\ Shape.quota_ok api h resp = true;
  wb_page : forall h org page,
    exists resp, respond api h (GetOrgRepos org page) = Some resp
                 /\ Shape.page_ok resp = true
                 /\ ((Z.of_nat pages < page)%Z -> Shape.last_page resp = true);
  wb_listing : forall h org repo_name,
    exists resp, respond api h (GetWorkflows org repo_name) = Some resp
                 /\ Shape.listing_ok resp = true;
  wb_raw : forall h url,
    Shape.is_url url = true ->
    exists resp, respond api h (GetRaw url) = Some resp
                 /\ Shape.raw_ok resp = true
}.

(** A computation that returns from every world, with a value that has
    the property. *)
Definition runs {A : Type} (m : M A) (Q : A -> Prop) : Prop :=
  forall w, exists w' a, m w = (w', Ret a) /\ Q a.

(** ** More servers and payloads, for the properties of single functions *)

Module Cases.

(** A server whose quota endpoint is down: every answer is a 503. *)
Definition quota_down : remote :=
  mkRemote (fun _ _ => Some (mkResponse 503 None)) (fun _ => 1699999000%Z).

(** A server whose quota endpoint answers 200 with an empty object. *)
Definition quota_empty : remote :=
  mkRemote (fun _ _ => Some (mkResponse 200 (Some (VDict [])))) (fun _ => 1699999000%Z).

(** A server that reports an exhausted quota with its reset time in
    milliseconds. *)
Definition quota_far : remote :=
  mkRemote (fun _ _ => Some (Demo.quota 0 1700000000000)) (fun _ => 1699999000%Z).

(** A server with plenty of quota that answers every other request with
    status 200 and a body that is not JSON. *)
Definition listing_not_json : remote :=
  mkRemote
    (fun _ r =>
       match r with
       | GetRateLimit => Some (Demo.quota 4999 1700000000)
       | _ => Some (mkResponse 200 None)
       end)
    (fun _ => 1699999000%Z).

End Cases.

Module Cases2.

(** A server with plenty of quota that answers every repository page
    with one more repository. *)
Definition endless : remote :=
  mkRemote
    (fun _ r =>
       match r with
       | GetRateLimit => Some (Demo.quota 4999 1700000000)
       | _ => Some (mkResponse 200 (Some (VList [VDict [(VStr "name", VStr "api")]])))
       end)
    (fun _ => 1699999000%Z).

End Cases2.

(** ** The locator's result, as a filter over the listing *)

Module LocatorSpec.

(** The item's [type] is the string [file]. *)
Definition is_file (item : value) : bool :=
  match Py.subscript item "type" with
  | Ret ty => Py.scalar_eqb ty (VStr "file")
  | _ => false
  end.

(** The value of a field of an item; [None] when the item has none. *)
Definition field (item : value) (k : string) : value :=
  match Py.subscript item k with
  | Ret v => v
  | _ => VNone
  end.

(** The record [fetch_workflow_files] keeps of a file item. *)
Definition to_workflow (item : value) : workflow :=
  mkWorkflow (field item "name") (field item "path") (field item "download_url").

Definition is_list (v : value) : bool :=
  match v with
  | VList _ => true
  | _ => false
  end.

End LocatorSpec.

(** The entry [main] records for one reference of a workflow file. *)
Definition entry_for (own_orgs : list string) (wf : workflow) (ref : value) : entry :=
  mkEntry (path wf) ref
    (match ref with
     | VStr s => is_third_party s own_orgs
     | _ => false
     end).

(** The request for the organizations of the user. *)
Definition is_org_fetch (e : event) : bool :=
  match e with
  | EvRequest GetUserOrgs => true
  | _ => false
  end.

(** How often a trace asks for the organizations. *)
Definition org_fetches (tr : list event) : nat :=
  List.length (filter is_org_fetch tr).

(** Any request for the organizations in [tr] is its oldest event. *)
Definition org_fetch_first (tr : list event) : Prop :=
  forall newer older, tr = newer ++ EvRequest GetUserOrgs :: older -> older = [].

(** An entry whose reference is a string and whose flag is the verdict
    of [is_third_party] on it. *)
Definition entry_ok (own_orgs : list string) (e : entry) : Prop :=
  exists s, uses_reference e = VStr s /\ third_party e = is_third_party s own_orgs.

(** ** Extraction of references, for stating where the report's keys come from *)

(** Within the crawl of the organization [org], whose repository list
    [repos] is walked from the world [wr]: a repository of the list named
    [repo_name] was reached, its workflows directory listed at least one
    file, and its files yielded the entries [entries], at least one (the
    loop over the files makes one entry per extracted reference). *)
Definition repo_extracted (api : remote) (own : list string) (org : value)
  (wr : world) (repos : list value) (repo_name : value) (entries : list entry)
  : Prop :=
  exists repos1 repo repos2 ws acc1 repo_name' wa wb wf files,
    repos = repos1 ++ repo :: repos2
    /\ repos_loop api own org repos1 [] wr = (ws, Ret acc1)
    /\ Py.subscript repo "name" = Ret repo_name'
    /\ Py.scalar_eqb repo_name' repo_name = true
    /\ fetch_workflow_files api org repo_name' ws = (wa, Ret (wf :: files))
    /\ files_loop api own (wf :: files) [] wa = (wb, Ret entries)
    /\ entries <> [].

(** Within the crawl of the organizations [orgs] from the world [w1]: an
    organization of the list named [org] was reached, its repositories
    were enumerated, and every key of [org_results] comes from an
    extraction in that enumeration. *)
Definition org_extracted (api : remote) (fuel : nat) (own : list string)
  (w1 : world) (orgs : list value) (org : value) (org_results : org_report)
  : Prop :=
  exists orgs1 org' orgs2 wo results1 wr repos,
    orgs = orgs1 ++ org' :: orgs2
    /\ Py.scalar_eqb org' org = true
    /\ orgs_loop api fuel own orgs1 [] w1 = (wo, Ret results1)
    /\ fetch_all_repos api fuel org' wo = (wr, Ret repos)
    /\ forall repo_name entries,
         Py.assoc_get repo_name org_results = Some entries ->
         repo_extracted api own org' wr repos repo_name entries.

(** At least one reference was extracted for the pair: in the crawl of
    the organizations [org_list] from the world [w1], some crawl of an
    organization named [org] extracted the entries [entries], at least
    one, for a repository named [repo_name]. *)
Definition extracted (api : remote) (fuel : nat) (own : list string)
  (org_list : list value) (w1 : world) (org repo_name : value)
  (entries : list entry) : Prop :=
  exists orgs1 org' orgs2 wo results1 wr repos,
    org_list = orgs1 ++ org' :: orgs2
    /\ Py.scalar_eqb org' org = true
    /\ orgs_loop api fuel own orgs1 [] w1 = (wo, Ret results1)
    /\ fetch_all_repos api fuel org' wo = (wr, Ret repos)
    /\ repo_extracted api own org' wr repos repo_name entries.

(** No two names of the list are equal. *)
Fixpoint distinct_keys (l : list value) : bool :=
  match l with
  | [] => true
  | x :: rest =>
      forallb (fun o => negb (Py.scalar_eqb o x)) rest && distinct_keys rest
  end.

(** The report as the description has it: a key for a pair exactly when
    at least one reference was extracted for the pair. *)
Definition keys_iff_extracted : Prop :=
  forall (api : remote) (fuel : nat) (w w1 : world) (r : report)
         (orgs : value) (org_list : list value) (own : list string)
         (org repo : value),
    results_file w = None ->
    results_file (fst (main api fuel w)) = Some r ->
    load_orgs api w = (w1, Ret orgs) ->
    Py.iterate orgs = Ret org_list ->
    Py.comprehension Py.lower org_list = Ret own ->
    (has_pair r org repo = true
     <-> exists entries, extracted api fuel own org_list w1 org repo entries).

Module Cases3.

(** Was the first repository page of some organization asked for yet? *)
Definition listed_before (h : list event) : bool :=
  existsb (fun e => match e with
                    | EvRequest (GetOrgRepos _ page) => (page =? 1)%Z
                    | _ => false
                    end) h.

(** A server on which the one repository is renamed during the run: the
    first listing shows [api], every later one [web]. *)
Definition renaming : remote :=
  mkRemote
    (fun h r =>
       match r with
       | GetRateLimit => Some (Demo.quota 4999 1700000000)
       | GetUserOrgs =>
           Some (mkResponse 200 (Some (VList [VDict [(VStr "login", VStr "acme")]])))
       | GetOrgRepos _ page =>
           if (page =? 1)%Z
           then Some (mkResponse 200
                        (Some (VList [VDict [(VStr "name",
                                             VStr (if listed_before h
                                                   then "web" else "api"))]])))
           else Some (mkResponse 200 (Some (VList [])))
       | GetWorkflows _ _ => Some (mkResponse 200 (Some Demo.listing))
       | GetRaw _ => Some (mkResponse 200 (Some Demo.ci_yml))
       end)
    (fun _ => 1699999000%Z).

(** The cache file names the organization twice. *)
Definition twice : world := Demo.start_with [VStr "acme"; VStr "acme"].

End Cases3.


(** * Properties *)

(** ** Strings *)

Lemma split_nonempty : forall sep s, PyStr.split sep s <> [].
Proof.
  intros sep s; destruct s as [|c s]; simpl; [discriminate|].
  destruct (Ascii.eqb c sep); [discriminate|].
  destruct (PyStr.split sep s); discriminate.
Qed.

Lemma split_head : forall sep s,
  nth 0 (PyStr.split sep s) "" = PyStr.before_first sep s.
Proof.
  intros sep s; induction s as [|c s IH]; simpl; [reflexivity|].
  destruct (Ascii.eqb c sep); [reflexivity|].
  destruct (PyStr.split sep s) as [|p ps] eqn:E.
  - exfalso; exact (split_nonempty _ _ E).
  - simpl in *. now rewrite IH.
Qed.

Lemma split_cons : forall sep s,
  exists ps, PyStr.split sep s = PyStr.before_first sep s :: ps.
Proof.
  intros sep s. pose proof (split_head sep s) as H.
  destruct (PyStr.split sep s) as [|p ps] eqn:E.
  - exfalso; exact (split_nonempty _ _ E).
  - exists ps. simpl in H. now rewrite H.
Qed.

Lemma str_in_In : forall s l, str_in s l = true <-> In s l.
Proof.
  intros s l; unfold str_in; rewrite existsb_exists; split.
  - intros [x [Hx Hs]]. apply String.eqb_eq in Hs. now subst.
  - intros H. exists s. split; [assumption|apply String.eqb_refl].
Qed.

(** The classifier as one boolean expression over the normalized
    reference and its owner segment. *)
Lemma is_third_party_unfold : forall ref own,
  is_third_party ref own =
  let norm := PyStr.strip (PyStr.lower ref) in
  let owner := PyStr.before_first "/" (PyStr.before_first "@" norm) in
  negb (PyStr.startswith norm "actions/")
  && negb (str_in owner own) && negb (owner =? "docker").
Proof.
  intros ref own; unfold is_third_party; cbv zeta.
  destruct (PyStr.startswith _ "actions/"); [reflexivity|].
  rewrite split_head.
  destruct (split_cons "/" (PyStr.before_first "@" (PyStr.strip (PyStr.lower ref))))
    as [ps ->].
  reflexivity.
Qed.

(** C1: [is_third_party] answers first-party exactly when the normalized
    reference starts with [actions/], or its owner segment is [docker], or
    its owner segment is one of the own organizations; it answers
    third-party in every other case.  The two examples with [myorg]
    evaluate as stated. *)
Theorem is_third_party_spec : forall (ref : string) (ownOrgs : list string),
  let norm := PyStr.strip (PyStr.lower ref) in
  let owner := PyStr.before_first "/" (PyStr.before_first "@" norm) in
  let first_party :=
    String.prefix "actions/" norm = true \/ owner = "docker" \/ In owner ownOrgs in
  (is_third_party ref ownOrgs = false <-> first_party)
  /\ (is_third_party ref ownOrgs = true <-> ~ first_party)
  /\ is_third_party "myorg/custom-action@v3" ["myorg"] = false
  /\ is_third_party "myorg/custom-action@v3" ["otherorg"] = true.
Proof.
  intros ref ownOrgs norm owner first_party.
  assert (Hfp : is_third_party ref ownOrgs = false <-> first_party).
  { rewrite is_third_party_unfold.
    subst first_party owner norm; cbv zeta; unfold PyStr.startswith.
    set (norm := PyStr.strip (PyStr.lower ref)).
    set (owner := PyStr.before_first "/" (PyStr.before_first "@" norm)).
    rewrite <- (str_in_In owner ownOrgs), <- (String.eqb_eq owner "docker").
    clearbody owner; clearbody norm.
    destruct (String.prefix "actions/" norm), (str_in owner ownOrgs),
      (owner =? "docker"); simpl; intuition congruence. }
  repeat split; try reflexivity; try (apply Hfp; assumption).
  - intros Ht Hf. apply Hfp in Hf. congruence.
  - intros Hn. destruct (is_third_party ref ownOrgs) eqn:E; [reflexivity|].
    exfalso; apply Hn, Hfp; reflexivity.
Qed.

(** C4: the guard [if not parts] never fires, because [split] always
    returns at least one piece.  A reference with no owner text (empty,
    blank, or starting with [@]) gets the empty owner and is flagged
    third-party unless the empty string is one of the own organizations. *)
Theorem is_third_party_no_owner_flagged :
  is_third_party "" ["acme"] = true
  /\ is_third_party "   " ["acme"] = true
  /\ is_third_party "@v1" ["acme"] = true
  /\ (forall own, is_third_party "" own = negb (str_in "" own))
  /\ (forall sep s, PyStr.split sep s <> []).
Proof.
  repeat split; try reflexivity.
  - intros own. rewrite is_third_party_unfold. simpl.
    now rewrite andb_true_r.
  - apply split_nonempty.
Qed.

(** ** WorkflowParser *)

Lemma steps_loop_spec : forall steps acc,
  steps_loop steps acc = acc ++ flat_map ParserSpec.uses_of_step steps.
Proof.
  induction steps as [|step rest IH]; intros acc; simpl.
  - now rewrite app_nil_r.
  - destruct step; simpl; try apply IH.
    destruct (Py.dict_get "uses" kvs); simpl.
    + rewrite IH, <- app_assoc. reflexivity.
    + apply IH.
Qed.

(** When every job is a mapping, the job loop returns the references of
    all steps in job-then-step order. *)
Lemma jobs_loop_spec : forall jobs acc,
  forallb (fun job => ParserSpec.is_dict (snd job)) jobs = true ->
  jobs_loop jobs acc
  = Ret (acc ++ flat_map ParserSpec.uses_of_step (ParserSpec.all_steps jobs)).
Proof.
  induction jobs as [|[job_name job_data] rest IH]; intros acc H; simpl.
  - now rewrite app_nil_r.
  - simpl in H. apply andb_true_iff in H as [Hd Hrest].
    destruct job_data; try discriminate. simpl.
    rewrite flat_map_app, app_assoc.
    destruct (Py.dict_get "steps" kvs) as [steps|]; simpl.
    + destruct steps; simpl; rewrite ?app_nil_r; try (now apply IH).
      rewrite IH by assumption. now rewrite steps_loop_spec.
    + rewrite app_nil_r. now apply IH.
Qed.

Lemma has_steps_is_dict : forall jobs : list (value * value),
  forallb (fun job => ParserSpec.has_steps (snd job)) jobs = true ->
  forallb (fun job => ParserSpec.is_dict (snd job)) jobs = true.
Proof.
  intros jobs H. rewrite forallb_forall in *. intros [job_name job_data] Hin.
  specialize (H _ Hin). simpl in *. destruct job_data; simpl in *; congruence.
Qed.

Lemma uses_count : forall steps,
  List.length (flat_map ParserSpec.uses_of_step steps)
  = List.length (filter ParserSpec.carries_uses steps).
Proof.
  induction steps as [|step rest IH]; simpl; [reflexivity|].
  rewrite length_app, IH.
  destruct step; simpl; try reflexivity.
  unfold Py.contains. destruct (Py.dict_get "uses" kvs); reflexivity.
Qed.

(** C2: when the download succeeds with a document that is a mapping
    whose [jobs] is a mapping of jobs that each have a [steps] sequence,
    [parse_workflow_file] returns the [uses] values of the steps that
    carry one, jobs in iteration order and steps in sequence order: one
    reference per such step, none for a step with only [run], so N
    references for N [uses] steps and M [run]-only steps. *)
Theorem parse_workflow_file_uses_in_order :
  forall (api : remote) (download_url : value) (w w1 : world)
         (wd jobs : list (value * value)),
    enforce_rate_limit api w = (w1, Ret tt) ->
    respond api (trace w1) (GetRaw download_url)
      = Some (mkResponse 200 (Some (VDict wd))) ->
    Py.dict_get "jobs" wd = Some (VDict jobs) ->
    forallb (fun job => ParserSpec.has_steps (snd job)) jobs = true ->
    let refs := flat_map ParserSpec.uses_of_step (ParserSpec.all_steps jobs) in
    parse_workflow_file api download_url w
      = (log (EvRequest (GetRaw download_url)) w1, Ret refs)
    /\ (forall step, ParserSpec.carries_uses step = true ->
          exists u, ParserSpec.uses_of_step step = [u])
    /\ (forall step, ParserSpec.run_only step = true ->
          ParserSpec.uses_of_step step = [])
    /\ (forall N M : nat,
          List.length (filter ParserSpec.carries_uses (ParserSpec.all_steps jobs)) = N ->
          List.length (filter ParserSpec.run_only (ParserSpec.all_steps jobs)) = M ->
          List.length refs = N).
Proof.
  intros api url w w1 wd jobs Hgate Hresp Hjobs Hshape refs.
  repeat split.
  - unfold parse_workflow_file, bind. rewrite Hgate.
    unfold requests_get. rewrite Hresp. simpl.
    unfold lift. rewrite Hjobs.
    rewrite jobs_loop_spec by now apply has_steps_is_dict.
    reflexivity.
  - intros step H. destruct step; simpl in *; try discriminate.
    unfold Py.contains in H. destruct (Py.dict_get "uses" kvs) as [u|];
      [now exists u | discriminate].
  - intros step H. destruct step; simpl in *; try discriminate.
    unfold Py.contains in H.
    destruct (Py.dict_get "uses" kvs); [|reflexivity].
    rewrite andb_false_r in H. discriminate.
  - intros N M HN _. subst refs. now rewrite uses_count.
Qed.

Lemma parse_workflow_file_uses_in_order_witness :
  parse_workflow_file Demo.server (VStr "https://raw.example/acme/api/ci.yml")
    Demo.start
  = (log (EvRequest (GetRaw (VStr "https://raw.example/acme/api/ci.yml")))
       (log (EvRequest GetRateLimit) Demo.start),
     Ret [VStr "actions/checkout@v3"; VStr "randomuser/cool-action@v1"]).
Proof.
  exact (proj1 (parse_workflow_file_uses_in_order Demo.server
           (VStr "https://raw.example/acme/api/ci.yml") Demo.start
           (log (EvRequest GetRateLimit) Demo.start)
           Demo.ci_fields Demo.ci_jobs eq_refl eq_refl eq_refl eq_refl)).
Defined.

(** C3: a job whose value is not a mapping makes [job_data.get] raise,
    outside the [try]; the exception leaves [parse_workflow_file] and ends
    the run.  [jobs: {build: null}] is such a document. *)
Theorem parse_workflow_file_raises_on_bodyless_job :
  extract_uses Demo.empty_job_yml = Raise AttributeError
  /\ snd (parse_workflow_file (Demo.server_with (Some Demo.empty_job_yml))
            (VStr "https://raw.example/acme/api/ci.yml") Demo.start)
     = Raise AttributeError
  /\ snd (main (Demo.server_with (Some Demo.empty_job_yml)) 5 Demo.start)
     = Raise AttributeError
  /\ (forall job_name job_data rest,
        ParserSpec.is_dict job_data = false ->
        extract_uses (VDict [(VStr "jobs", VDict ((job_name, job_data) :: rest))])
        = Raise AttributeError).
Proof.
  repeat split; try reflexivity.
  intros job_name job_data rest H. destruct job_data; try reflexivity.
  discriminate.
Qed.

(** ** RequestGate *)

Lemma check_rate_limit_eq : forall api w,
  check_rate_limit api w =
  match respond api (trace w) GetRateLimit with
  | Some resp => (log (EvRequest GetRateLimit) w, read_quota resp)
  | None => (log (EvRequest GetRateLimit) w, Raise RequestException)
  end.
Proof.
  intros api w. unfold check_rate_limit, bind, requests_get, read_quota.
  destruct (respond api (trace w) GetRateLimit) as [resp|]; [|reflexivity].
  destruct (status_code resp =? 200)%Z; [|reflexivity].
  unfold json. destruct (parsed resp) as [data|]; [|reflexivity].
  unfold ret, lift.
  destruct (Py.subscript data "rate") as [rate| | |]; simpl; try reflexivity.
  destruct (Py.subscript rate "remaining"); simpl; try reflexivity.
  destruct (Py.subscript rate "reset"); reflexivity.
Qed.

(** [enforce_rate_limit] is one quota query, then at most one sleep. *)
Lemma enforce_rate_limit_eq : forall api w,
  enforce_rate_limit api w =
  match gate_action api (trace w) with
  | Ret None => (log (EvRequest GetRateLimit) w, Ret tt)
  | Ret (Some t) => (log (EvSleep t) (log (EvRequest GetRateLimit) w), Ret tt)
  | Raise e => (log (EvRequest GetRateLimit) w, Raise e)
  | Exit c => (log (EvRequest GetRateLimit) w, Exit c)
  | OutOfFuel => (log (EvRequest GetRateLimit) w, OutOfFuel)
  end.
Proof.
  intros api w. unfold enforce_rate_limit, bind. rewrite check_rate_limit_eq.
  unfold gate_action.
  destruct (respond api (trace w) GetRateLimit) as [resp|]; [|reflexivity].
  destruct (read_quota resp) as [[remaining reset_time]| | |]; simpl; try reflexivity.
  destruct (Py.scalar_eqb remaining (VInt 0)); [|reflexivity].
  unfold time_time. simpl.
  destruct (Py.as_int reset_time) as [reset|]; [|reflexivity].
  unfold time_sleep. cbv zeta.
  set (t := Z.max (reset - now api (EvRequest GetRateLimit :: trace w)) 65).
  destruct (sleep_max <? t)%Z eqn:E; [reflexivity|].
  assert (H1 : (t <? - sleep_max)%Z = false)
    by (apply Z.ltb_ge; unfold sleep_max; subst t; lia).
  assert (H2 : (t <? 0)%Z = false) by (apply Z.ltb_ge; subst t; lia).
  rewrite H1, H2. reflexivity.
Qed.

Lemma read_quota_returns : forall resp,
  (exists q, read_quota resp = Ret q) \/ (exists e, read_quota resp = Raise e).
Proof.
  intros resp. unfold read_quota.
  destruct (status_code resp =? 200)%Z; [|left; eauto].
  destruct (parsed resp) as [data|]; [|right; eauto].
  destruct (Py.subscript data "rate") as [rate| | |] eqn:E1; simpl;
    try (right; eauto; fail);
    try (destruct data; simpl in E1; try discriminate;
         destruct (Py.dict_get "rate" _); discriminate).
  destruct (Py.subscript rate "remaining") eqn:E2; simpl;
    try (right; eauto; fail);
    try (destruct rate; simpl in E2; try discriminate;
         destruct (Py.dict_get "remaining" _); discriminate).
  destruct (Py.subscript rate "reset") eqn:E3; simpl;
    try (left; eauto; fail); try (right; eauto; fail);
    destruct rate; simpl in E3; try discriminate;
    destruct (Py.dict_get "reset" _); discriminate.
Qed.

(** The gate sleeps only on an exhausted quota, for the
    [max(reset_time - now, 65)] seconds its answer asks for, and
    otherwise returns or raises. *)
Lemma gate_action_cases : forall api before,
  (gate_action api before = Ret None)
  \/ (exists t, gate_action api before = Ret (Some t)
                /\ (65 <= t)%Z /\ (t <= sleep_max)%Z
      /\ exists resp, respond api before GetRateLimit = Some resp
                      /\ exhausted resp = true
                      /\ sleep_length api before resp = Some t)
  \/ (exists e, gate_action api before = Raise e).
Proof.
  intros api before. unfold gate_action.
  destruct (respond api before GetRateLimit) as [resp|] eqn:R;
    [|right; right; eauto].
  destruct (read_quota_returns resp) as [[[remaining reset_time] Q]|[e Q]];
    rewrite Q; simpl; [|right; right; eauto].
  destruct (Py.scalar_eqb remaining (VInt 0)) eqn:Z0; [|left; reflexivity].
  destruct (Py.as_int reset_time) as [reset|] eqn:Ei; [|right; right; eauto].
  destruct (sleep_max <? Z.max (reset - now api (EvRequest GetRateLimit :: before)) 65)%Z
    eqn:Eo; [right; right; eauto|].
  apply Z.ltb_ge in Eo.
  right; left. eexists. split; [reflexivity|]. split; [lia|]. split; [exact Eo|].
  exists resp. split; [reflexivity|]. unfold exhausted, sleep_length.
  rewrite Q, Z0, Ei. split; reflexivity.
Qed.

(** C10: one call of [enforce_rate_limit] ends, after exactly one quota
    query and at most one sleep; after a sleep it returns without asking
    again, also against a server whose quota stays exhausted. *)
Theorem enforce_rate_limit_one_check_one_sleep : forall (api : remote) (w : world),
  snd (enforce_rate_limit api w) <> OutOfFuel
  /\ (trace (fst (enforce_rate_limit api w)) = EvRequest GetRateLimit :: trace w
      \/ exists t,
           (65 <= t)%Z
           /\ snd (enforce_rate_limit api w) = Ret tt
           /\ trace (fst (enforce_rate_limit api w))
              = EvSleep t :: EvRequest GetRateLimit :: trace w)
  /\ enforce_rate_limit Demo.throttled_server Demo.start
     = (log (EvSleep 1000) (log (EvRequest GetRateLimit) Demo.start), Ret tt).
Proof.
  intros api w. rewrite enforce_rate_limit_eq.
  destruct (gate_action_cases api (trace w))
    as [-> | [[t [-> [Ht _]]] | [e ->]]]; simpl.
  - repeat split; [discriminate | now left].
  - repeat split; [discriminate | right; exists t; auto].
  - repeat split; [discriminate | now left].
Qed.

(** ** OrgRegistry *)

Lemma fetch_orgs_trace : forall api w,
  trace (fst (fetch_orgs api w)) = EvRequest GetUserOrgs :: trace w.
Proof.
  intros api w. unfold fetch_orgs, bind, requests_get.
  destruct (respond api (trace w) GetUserOrgs) as [resp|]; [|reflexivity].
  destruct (status_code resp =? 200)%Z; [|reflexivity].
  unfold json. destruct (parsed resp) as [body|]; [|reflexivity].
  unfold ret, lift.
  destruct (Py.iterate body) as [items| | |]; try reflexivity.
  destruct (Py.comprehension _ items); reflexivity.
Qed.

(** C9: a cache file that loads is returned as it is, whatever its
    shape, with no request and no change to the world; only a missing
    file or a file that does not load leads to the live fetch. *)
Theorem load_orgs_returns_cache_unchecked :
  forall (api : remote) (tok : option string) (res : option report)
         (tr : list event),
    (forall v : value,
       load_orgs api (mkWorld tok (Some (Some v)) res tr)
       = (mkWorld tok (Some (Some v)) res tr, Ret v))
    /\ load_orgs api (mkWorld tok None res tr)
       = fetch_orgs api (mkWorld tok None res tr)
    /\ load_orgs api (mkWorld tok (Some None) res tr)
       = fetch_orgs api (mkWorld tok (Some None) res tr)
    /\ (forall w, trace (fst (fetch_orgs api w)) = EvRequest GetUserOrgs :: trace w)
    /\ load_orgs api (mkWorld tok (Some (Some (VInt 7))) res tr)
       = (mkWorld tok (Some (Some (VInt 7))) res tr, Ret (VInt 7))
    /\ load_orgs api (mkWorld tok (Some (Some (VDict [(VStr "a", VNone)]))) res tr)
       = (mkWorld tok (Some (Some (VDict [(VStr "a", VNone)]))) res tr,
          Ret (VDict [(VStr "a", VNone)])).
Proof.
  intros api tok res tr. repeat split; try reflexivity.
  apply fetch_orgs_trace.
Qed.

(** ** Trace invariants of the crawl *)

Lemma keeps_ret : forall I A (a : A), keeps I (ret a).
Proof. intros I A a w H. exact H. Qed.

Lemma keeps_lift : forall I A (o : outcome A), keeps I (lift o).
Proof. intros I A o w H. exact H. Qed.

Lemma keeps_bind : forall I A B (m : M A) (f : A -> M B),
  keeps I m -> (forall a, keeps I (f a)) -> keeps I (bind m f).
Proof.
  intros I A B m f Hm Hf w H. unfold bind.
  specialize (Hm w H). destruct (m w) as [w' o]. simpl in Hm.
  destruct o; simpl; try assumption. now apply Hf.
Qed.

Lemma keeps_json : forall I r, keeps I (json r).
Proof.
  intros I r. unfold json.
  destruct (parsed r); [apply keeps_ret | apply keeps_lift].
Qed.

Ltac keeps_step :=
  lazymatch goal with
  | |- keeps _ (ret _) => apply keeps_ret
  | |- keeps _ (lift _) => apply keeps_lift
  | |- keeps _ (json _) => apply keeps_json
  | |- keeps _ (if ?b then _ else _) => destruct b
  | |- keeps _ (match ?x with _ => _ end) => destruct x
  end.

Section Invariant.

Variable api : remote.
Variable I : world -> Prop.

(** The two ways the crawler talks to the remote side: a call behind the
    gate, and the ungated fetch of the organizations. *)
Hypothesis gated_call_keeps : forall A (r : request) (k : response -> M A),
  crawl_call r = true ->
  (forall resp, keeps I (k resp)) ->
  keeps I (enforce_rate_limit api ;; resp <- requests_get api r ;; k resp).
Hypothesis fetch_orgs_keeps : keeps I (fetch_orgs api).
Hypothesis write_keeps : forall results w, I w -> I (set_results_file results w).

Lemma fetch_all_repos_loop_keeps : forall fuel org repos page,
  keeps I (fetch_all_repos_loop api fuel org repos page).
Proof.
  induction fuel as [|fuel IH]; intros org repos page; simpl.
  - apply keeps_lift.
  - apply gated_call_keeps; [reflexivity|]. intros resp.
    keeps_step; [keeps_step|].
    apply keeps_bind; [keeps_step|]. intros batch.
    keeps_step; [keeps_step|].
    apply keeps_bind; [keeps_step|]. intros items. apply IH.
Qed.

Lemma fetch_workflow_files_keeps : forall org repo_name,
  keeps I (fetch_workflow_files api org repo_name).
Proof.
  intros org repo_name. unfold fetch_workflow_files.
  apply gated_call_keeps; [reflexivity|]. intros resp.
  keeps_step; [keeps_step|]. keeps_step; [keeps_step|].
  apply keeps_bind; [keeps_step|]. intros items.
  keeps_step; keeps_step.
Qed.

Lemma parse_workflow_file_keeps : forall download_url,
  keeps I (parse_workflow_file api download_url).
Proof.
  intros url. unfold parse_workflow_file.
  apply gated_call_keeps; [reflexivity|]. intros resp.
  keeps_step; [keeps_step|]. keeps_step; keeps_step.
Qed.

Lemma files_loop_keeps : forall own files inventory,
  keeps I (files_loop api own files inventory).
Proof.
  intros own files; induction files as [|wf rest IH]; intros inventory; simpl.
  - apply keeps_ret.
  - apply keeps_bind; [apply parse_workflow_file_keeps|]. intros uses_list.
    apply keeps_bind; [keeps_step|]. intros inv. apply IH.
Qed.

Lemma repos_loop_keeps : forall own org repos org_results,
  keeps I (repos_loop api own org repos org_results).
Proof.
  intros own org repos; induction repos as [|repo rest IH];
    intros org_results; simpl.
  - apply keeps_ret.
  - apply keeps_bind; [keeps_step|]. intros repo_name.
    apply keeps_bind; [apply fetch_workflow_files_keeps|]. intros files.
    destruct files as [|wf files]; [apply IH|].
    apply keeps_bind; [apply files_loop_keeps|]. intros inventory.
    destruct inventory as [|e inventory]; [apply IH|].
    apply keeps_bind; [keeps_step|]. intros org_results'. apply IH.
Qed.

Lemma orgs_loop_keeps : forall fuel own orgs results,
  keeps I (orgs_loop api fuel own orgs results).
Proof.
  intros fuel own orgs; induction orgs as [|org rest IH]; intros results; simpl.
  - apply keeps_ret.
  - apply keeps_bind; [apply fetch_all_repos_loop_keeps|]. intros repos.
    destruct repos as [|repo repos]; [apply IH|].
    apply keeps_bind; [apply repos_loop_keeps|]. intros org_results.
    destruct org_results as [|p org_results]; [apply IH|].
    apply keeps_bind; [keeps_step|]. intros results'. apply IH.
Qed.

Lemma load_orgs_keeps : keeps I (load_orgs api).
Proof.
  intros w H. unfold load_orgs.
  destruct (org_file w) as [[v|]|]; try (now apply fetch_orgs_keeps).
  exact H.
Qed.

(** Whatever the remote side answers and however the run ends, [main]
    keeps the invariant. *)
Lemma main_keeps : forall fuel, keeps I (main api fuel).
Proof.
  intros fuel w H. unfold main.
  destruct (token_missing w); [exact H|].
  revert w H. change (keeps I
    (orgs <- load_orgs api ;;
     if negb (Py.truthy orgs) then lift (Exit 1)
     else
       org_list <- lift (Py.iterate orgs) ;;
       my_orgs_lower <- lift (Py.comprehension Py.lower org_list) ;;
       results <- orgs_loop api fuel my_orgs_lower org_list [] ;;
       (fun w' => (set_results_file results w', Ret tt)))).
  apply keeps_bind; [apply load_orgs_keeps|]. intros orgs.
  keeps_step; [keeps_step|].
  apply keeps_bind; [keeps_step|]. intros org_list.
  apply keeps_bind; [keeps_step|]. intros own.
  apply keeps_bind; [apply orgs_loop_keeps|]. intros results.
  intros w H. now apply write_keeps.
Qed.

End Invariant.

Lemma requests_get_trace : forall api r w,
  trace (fst (requests_get api r w)) = EvRequest r :: trace w.
Proof.
  intros api r w. unfold requests_get.
  destruct (respond api (trace w) r); reflexivity.
Qed.

Lemma enforce_rate_limit_trace : forall api w,
  (trace (fst (enforce_rate_limit api w)) = EvRequest GetRateLimit :: trace w
   /\ forall a, snd (enforce_rate_limit api w) = Ret a ->
                gate_action api (trace w) = Ret None)
  \/ (exists t resp,
        trace (fst (enforce_rate_limit api w))
        = EvSleep t :: EvRequest GetRateLimit :: trace w
        /\ (65 <= t)%Z
        /\ respond api (trace w) GetRateLimit = Some resp
        /\ exhausted resp = true
        /\ sleep_length api (trace w) resp = Some t).
Proof.
  intros api w. rewrite enforce_rate_limit_eq.
  destruct (gate_action_cases api (trace w))
    as [E | [[t [E [Ht [_ [resp [R [X L]]]]]]] | [e E]]]; rewrite E; simpl.
  - left. split; reflexivity.
  - right. exists t, resp. auto.
  - left. split; [reflexivity | discriminate].
Qed.

(** *** Calls behind the gate *)

Lemma gated_spec : forall guarded tr,
  gated guarded tr = true <->
  (forall newer r older,
     tr = newer ++ EvRequest r :: older ->
     guarded r = true -> checked_before older = true).
Proof.
  intros guarded tr; induction tr as [|e before IH]; simpl.
  - split; [|reflexivity]. intros _ newer r older H.
    destruct newer; discriminate.
  - split.
    + intros H newer r older Heq Hg.
      destruct newer as [|e' newer]; simpl in Heq.
      * injection Heq as -> ->. rewrite Hg in H.
        now apply andb_true_iff in H as [H _].
      * injection Heq as -> ->.
        assert (Hb : gated guarded (newer ++ EvRequest r :: older) = true).
        { destruct e'; [now apply andb_true_iff in H as [_ H] | exact H]. }
        exact (proj1 IH Hb newer r older eq_refl Hg).
    + intros H.
      assert (Hb : gated guarded before = true).
      { apply IH. intros newer r older -> Hg.
        exact (H (e :: newer) r older eq_refl Hg). }
      destruct e as [r|t]; [|exact Hb].
      rewrite Hb, andb_true_r.
      destruct (guarded r) eqn:Hg; [|reflexivity].
      exact (H [] r before eq_refl Hg).
Qed.

Lemma gated_call_keeps_gated : forall api A (r : request) (k : response -> M A),
  crawl_call r = true ->
  (forall resp, keeps (fun w => gated crawl_call (trace w) = true) (k resp)) ->
  keeps (fun w => gated crawl_call (trace w) = true)
    (enforce_rate_limit api ;; resp <- requests_get api r ;; k resp).
Proof.
  intros api A r k Hr Hk w H. unfold bind. rewrite enforce_rate_limit_eq.
  destruct (gate_action api (trace w)) as [[t|]| | |]; simpl; try exact H;
    unfold requests_get; simpl.
  - destruct (respond api _ r) as [resp|]; simpl.
    + apply Hk. simpl. now rewrite Hr, H.
    + now rewrite Hr, H.
  - destruct (respond api _ r) as [resp|]; simpl.
    + apply Hk. simpl. now rewrite Hr, H.
    + now rewrite Hr, H.
Qed.

Lemma fetch_orgs_keeps_gated : forall api,
  keeps (fun w => gated crawl_call (trace w) = true) (fetch_orgs api).
Proof.
  intros api w H. rewrite fetch_orgs_trace. simpl. exact H.
Qed.

Lemma main_gated : forall api fuel w,
  gated crawl_call (trace w) = true ->
  gated crawl_call (trace (fst (main api fuel w))) = true.
Proof.
  intros api fuel.
  apply (main_keeps api (fun w => gated crawl_call (trace w) = true)).
  - apply gated_call_keeps_gated.
  - apply fetch_orgs_keeps_gated.
  - intros results w H. exact H.
Qed.

(** C6, as the code has it: in every run, finished or not, each request
    for a repository page, a workflows directory or a raw workflow file
    comes directly after a quota query, with nothing but the gate's own
    sleep in between.  The fetch of the organizations is issued without a
    quota query. *)
Theorem crawl_calls_follow_quota_check :
  forall (api : remote) (fuel : nat) (tok : option string)
         (cache : option (option value)) (res : option report),
    (forall newer r older,
       trace (fst (main api fuel (mkWorld tok cache res [])))
       = newer ++ EvRequest r :: older ->
       crawl_call r = true ->
       checked_before older = true)
    /\ (forall w, trace (fst (fetch_orgs api w)) = EvRequest GetUserOrgs :: trace w).
Proof.
  intros api fuel tok cache res. split.
  - apply gated_spec. now apply main_gated.
  - apply fetch_orgs_trace.
Qed.

Lemma crawl_calls_follow_quota_check_witness :
  checked_before
    [EvRequest GetRateLimit; EvRequest (GetOrgRepos (VStr "acme") 2);
     EvRequest GetRateLimit; EvRequest (GetOrgRepos (VStr "acme") 1);
     EvRequest GetRateLimit] = true.
Proof.
  exact (proj1 (crawl_calls_follow_quota_check Demo.server 5 (Some "secret")
                  (Some (Some (VList [VStr "acme"]))) None)
           [EvRequest (GetRaw (VStr "https://raw.example/acme/api/ci.yml"));
            EvRequest GetRateLimit]
           (GetWorkflows (VStr "acme") (VStr "api"))
           [EvRequest GetRateLimit; EvRequest (GetOrgRepos (VStr "acme") 2);
            EvRequest GetRateLimit; EvRequest (GetOrgRepos (VStr "acme") 1);
            EvRequest GetRateLimit]
           eq_refl eq_refl).
Defined.

(** With no cache file the first remote call of the run is the fetch of
    the organizations, and no quota query precedes it. *)
Lemma org_fetch_not_gated :
  ~ (forall (api : remote) (fuel : nat) (w : world),
       trace w = [] ->
       gated throttled_call (trace (fst (main api fuel w))) = true).
Proof.
  intros H. specialize (H Demo.server 5 Demo.start_no_cache eq_refl).
  vm_compute in H. discriminate.
Qed.

(** *** Sleeps *)

Lemma enforce_keeps_sleeps : forall api,
  keeps (fun w => sleeps_follow_exhaustion api (trace w)) (enforce_rate_limit api).
Proof.
  intros api w H.
  destruct (enforce_rate_limit_trace api w)
    as [[E _] | [t [resp [E [Ht [R [X L]]]]]]];
    rewrite E; simpl; [exact H|].
  rewrite R. auto.
Qed.

Lemma requests_get_keeps_sleeps : forall api r,
  keeps (fun w => sleeps_follow_exhaustion api (trace w)) (requests_get api r).
Proof.
  intros api r w H. rewrite requests_get_trace. exact H.
Qed.

Lemma main_sleeps_follow_exhaustion : forall api fuel w,
  sleeps_follow_exhaustion api (trace w) ->
  sleeps_follow_exhaustion api (trace (fst (main api fuel w))).
Proof.
  intros api fuel.
  apply (main_keeps api (fun w => sleeps_follow_exhaustion api (trace w))).
  - intros A r k _ Hk.
    apply keeps_bind; [apply enforce_keeps_sleeps|]. intros _.
    apply keeps_bind; [apply requests_get_keeps_sleeps | exact Hk].
  - intros w H. rewrite fetch_orgs_trace. exact H.
  - intros results w H. exact H.
Qed.

Lemma no_sleep_without_exhaustion : forall api tr,
  (forall before resp,
     respond api before GetRateLimit = Some resp -> exhausted resp = false) ->
  sleeps_follow_exhaustion api tr ->
  forall t, ~ In (EvSleep t) tr.
Proof.
  intros api tr Hq; induction tr as [|e before IH]; simpl; intros H t Hin;
    [exact Hin|].
  destruct e as [r|t'].
  - destruct Hin as [Hin|Hin]; [discriminate | exact (IH H t Hin)].
  - destruct H as [_ [H _]].
    destruct before as [|[[| | | |]|] older]; try contradiction.
    destruct (respond api older GetRateLimit) as [resp|] eqn:R; [|contradiction].
    destruct H as [H _]. rewrite (Hq _ _ R) in H. discriminate.
Qed.

Lemma sleep_length_spec : forall api before resp t,
  sleep_length api before resp = Some t ->
  exists remaining reset_time reset,
    read_quota resp = Ret (remaining, reset_time)
    /\ Py.scalar_eqb remaining (VInt 0) = true
    /\ Py.as_int reset_time = Some reset
    /\ t = Z.max (reset - now api (EvRequest GetRateLimit :: before)) 65.
Proof.
  intros api before resp t H. unfold sleep_length in H.
  destruct (read_quota resp) as [[remaining reset_time]| | |]; try discriminate.
  destruct (Py.scalar_eqb remaining (VInt 0)) eqn:E; [|discriminate].
  destruct (Py.as_int reset_time) as [reset|] eqn:Er; [|discriminate].
  injection H as <-. exists remaining, reset_time, reset. auto.
Qed.

Lemma sleeps_follow_exhaustion_tail : forall api e tr,
  sleeps_follow_exhaustion api (e :: tr) -> sleeps_follow_exhaustion api tr.
Proof.
  intros api [r|t] tr H; simpl in H; [exact H | now destruct H as [_ [_ H]]].
Qed.

Lemma sleeps_spec : forall api newer tr t older,
  sleeps_follow_exhaustion api tr ->
  tr = newer ++ EvSleep t :: older ->
  exists before resp,
    older = EvRequest GetRateLimit :: before
    /\ respond api before GetRateLimit = Some resp
    /\ exhausted resp = true
    /\ sleep_length api before resp = Some t.
Proof.
  intros api newer; induction newer as [|e newer IH]; intros tr t older H E;
    subst tr.
  - simpl in H. destruct H as [_ [H _]].
    destruct older as [|[[| | | |]|] before]; try contradiction.
    destruct (respond api before GetRateLimit) as [resp|] eqn:R; [|contradiction].
    exists before, resp. destruct H as [Hx Hl]. auto.
  - apply sleeps_follow_exhaustion_tail in H. exact (IH _ t older H eq_refl).
Qed.

(** C7, as the code has it: the crawl keeps no count of requests.  In
    every run, finished or not, each sleep comes directly after a quota
    query that reported no remaining calls, and lasts exactly
    [max(reset - now, 65)] seconds, where [reset] is the reset time that
    query reported (0 after a failed query) and [now] the clock after the
    query; against a server that never reports an exhausted quota the run
    never sleeps, however many requests it issues. *)
Theorem sleep_only_after_exhausted_quota :
  forall (api : remote) (fuel : nat) (tok : option string)
         (cache : option (option value)) (res : option report),
    sleeps_follow_exhaustion api
      (trace (fst (main api fuel (mkWorld tok cache res []))))
    /\ (forall newer t older,
          trace (fst (main api fuel (mkWorld tok cache res [])))
          = newer ++ EvSleep t :: older ->
          exists before resp remaining reset_time reset,
            older = EvRequest GetRateLimit :: before
            /\ respond api before GetRateLimit = Some resp
            /\ read_quota resp = Ret (remaining, reset_time)
            /\ Py.scalar_eqb remaining (VInt 0) = true
            /\ Py.as_int reset_time = Some reset
            /\ t = Z.max (reset - now api older) 65
            /\ (status_code resp <> 200%Z -> reset = 0%Z))
    /\ ((forall before resp,
           respond api before GetRateLimit = Some resp -> exhausted resp = false) ->
        forall t,
          ~ In (EvSleep t) (trace (fst (main api fuel (mkWorld tok cache res []))))).
Proof.
  intros api fuel tok cache res.
  assert (H : sleeps_follow_exhaustion api
                (trace (fst (main api fuel (mkWorld tok cache res []))))).
  { apply main_sleeps_follow_exhaustion. exact I. }
  split; [exact H|]. split.
  - intros newer t older E.
    destruct (sleeps_spec api newer _ t older H E)
      as [before [resp [-> [R [_ L]]]]].
    destruct (sleep_length_spec api before resp t L)
      as [remaining [reset_time [reset [Q [Hz [Hr ->]]]]]].
    exists before, resp, remaining, reset_time, reset.
    repeat (split; [first [reflexivity | assumption]|]).
    intros Hs. unfold read_quota in Q. apply Z.eqb_neq in Hs. rewrite Hs in Q.
    injection Q as <- <-. simpl in Hr. now injection Hr.
  - intros Hq. exact (no_sleep_without_exhaustion api _ Hq H).
Qed.

Lemma demo_quota_left : forall before resp,
  respond Demo.server before GetRateLimit = Some resp -> exhausted resp = false.
Proof.
  intros before resp H. simpl in H. injection H as <-. reflexivity.
Qed.

Lemma sleep_only_after_exhausted_quota_witness :
  (exists before resp remaining reset_time reset,
     [EvRequest GetRateLimit] = EvRequest GetRateLimit :: before
     /\ respond Demo.throttled_server before GetRateLimit = Some resp
     /\ read_quota resp = Ret (remaining, reset_time)
     /\ Py.scalar_eqb remaining (VInt 0) = true
     /\ Py.as_int reset_time = Some reset
     /\ 1000%Z = Z.max (reset - now Demo.throttled_server [EvRequest GetRateLimit]) 65
     /\ (status_code resp <> 200%Z -> reset = 0%Z))
  /\ ~ In (EvSleep 65) (trace (fst (main Demo.server 5 Demo.start))).
Proof.
  split.
  - exact (proj1 (proj2 (sleep_only_after_exhausted_quota Demo.throttled_server 1
                           (Some "secret") (Some (Some (VList [VStr "acme"]))) None))
             [EvRequest (GetOrgRepos (VStr "acme") 1)] 1000%Z
             [EvRequest GetRateLimit] eq_refl).
  - exact (proj2 (proj2 (sleep_only_after_exhausted_quota Demo.server 5 (Some "secret")
                           (Some (Some (VList [VStr "acme"]))) None))
             demo_quota_left 65%Z).
Defined.

(** *** A run with as many crawl calls as wanted and no sleep *)

Lemma fetch_all_repos_failing : forall org w,
  fetch_all_repos Demo.failing_server 1 org w
  = (log (EvRequest (GetOrgRepos org 1)) (log (EvRequest GetRateLimit) w), Ret []).
Proof.
  intros org w. unfold fetch_all_repos. simpl. unfold bind.
  rewrite enforce_rate_limit_eq. reflexivity.
Qed.

Lemma orgs_loop_failing_calls : forall orgs own results w,
  crawl_calls
    (trace (fst (orgs_loop Demo.failing_server 1 own orgs results w)))
  = List.length orgs + crawl_calls (trace w).
Proof.
  induction orgs as [|org rest IH]; intros own results w; simpl; [reflexivity|].
  unfold bind. rewrite fetch_all_repos_failing. rewrite IH. simpl.
  unfold crawl_calls. simpl. lia.
Qed.

Lemma lower_strings : forall org_list,
  forallb is_str org_list = true ->
  exists own, Py.comprehension Py.lower org_list = Ret own.
Proof.
  induction org_list as [|org rest IH]; simpl; intros H; [eauto|].
  apply andb_true_iff in H as [Ho Hrest].
  destruct org; try discriminate. simpl.
  destruct (IH Hrest) as [own ->]. simpl. eauto.
Qed.

Lemma org_names_strings : forall n, forallb is_str (Demo.org_names n) = true.
Proof.
  intros n. unfold Demo.org_names. induction (seq 0 n) as [|k ks IH];
    [reflexivity | exact IH].
Qed.

Lemma org_names_length : forall n, List.length (Demo.org_names n) = n.
Proof.
  intros n. unfold Demo.org_names. now rewrite length_map, length_seq.
Qed.

(** [main] after a successful start-up is the loop over the
    organizations, then the write of the report. *)
Lemma main_after_startup : forall api fuel w w1 orgs org_list own,
  token_missing w = false ->
  load_orgs api w = (w1, Ret orgs) ->
  Py.truthy orgs = true ->
  Py.iterate orgs = Ret org_list ->
  Py.comprehension Py.lower org_list = Ret own ->
  main api fuel w =
  match orgs_loop api fuel own org_list [] w1 with
  | (w', Ret results) => (set_results_file results w', Ret tt)
  | (w', Raise e) => (w', Raise e)
  | (w', Exit c) => (w', Exit c)
  | (w', OutOfFuel) => (w', OutOfFuel)
  end.
Proof.
  intros api fuel w w1 orgs org_list own Htok Hload Htruthy Hiter Hlower.
  unfold main. rewrite Htok. unfold bind at 1. rewrite Hload.
  rewrite Htruthy. cbn [negb]. unfold bind at 1, lift at 1. rewrite Hiter.
  unfold bind at 1, lift at 1. rewrite Hlower.
  unfold bind. destruct (orgs_loop api fuel own org_list [] w1) as [w' [results| | |]];
    reflexivity.
Qed.

Lemma main_failing_calls : forall org_list,
  org_list <> [] ->
  forallb is_str org_list = true ->
  crawl_calls
    (trace (fst (main Demo.failing_server 1 (Demo.start_with org_list))))
  = List.length org_list.
Proof.
  intros org_list Hne Hstr.
  destruct (lower_strings org_list Hstr) as [own Hown].
  rewrite (main_after_startup Demo.failing_server 1 (Demo.start_with org_list)
             (Demo.start_with org_list) (VList org_list) org_list own
             eq_refl eq_refl);
    [| destruct org_list; [contradiction | reflexivity] | reflexivity | exact Hown].
  pose proof (orgs_loop_failing_calls org_list own [] (Demo.start_with org_list))
    as H.
  destruct (orgs_loop Demo.failing_server 1 own org_list [] (Demo.start_with org_list))
    as [w' [results| | |]]; simpl in *; change (crawl_calls []) with 0 in H; lia.
Qed.

(** No fixed number of requests forces a cooldown: for every [N] there is
    a run with more than [N] crawl calls and no sleep. *)
Lemma no_request_count_cooldown : ~ exists N : nat, cooldown_every N.
Proof.
  intros [N H].
  destruct (H Demo.failing_server 1 (Demo.start_with (Demo.org_names (S N))) eq_refl)
    as [t Hin].
  - rewrite main_failing_calls.
    + rewrite org_names_length. lia.
    + discriminate.
    + apply org_names_strings.
  - revert Hin. apply no_sleep_without_exhaustion with (api := Demo.failing_server).
    + intros before resp R. simpl in R. injection R as <-. reflexivity.
    + apply main_sleeps_follow_exhaustion. exact I.
Qed.

(** ** InventoryAggregator *)

Lemma yields_ret : forall A (Q : A -> Prop) a, Q a -> yields Q (ret a).
Proof. intros A Q a H w w' a' E. injection E as _ <-. exact H. Qed.

Lemma yields_bind : forall A B (Q : B -> Prop) (m : M A) (f : A -> M B),
  (forall a w w1, m w = (w1, Ret a) -> yields Q (f a)) ->
  yields Q (bind m f).
Proof.
  intros A B Q m f H w w' b E. unfold bind in E.
  destruct (m w) as [w1 [a| | |]] eqn:Em; try discriminate.
  exact (H a w w1 Em w1 w' b E).
Qed.

Lemma scalar_eqb_refl : forall k, Py.hashable k = true -> Py.scalar_eqb k k = true.
Proof.
  destruct k; simpl; intros H; try discriminate; try reflexivity.
  - apply Z.eqb_refl.
  - apply Z.eqb_refl.
  - apply String.eqb_refl.
Qed.

Lemma assoc_get_set : forall X k (x : X) d,
  Py.hashable k = true -> Py.assoc_get k (Py.assoc_set k x d) = Some x.
Proof.
  intros X k x d Hk; induction d as [|[k' x'] rest IH]; simpl.
  - now rewrite scalar_eqb_refl.
  - destruct (Py.scalar_eqb k' k) eqn:E; simpl; rewrite E; [reflexivity | exact IH].
Qed.

(** A key that is set stays set. *)
Lemma assoc_set_keeps_keys : forall X k (x : X) d k',
  Py.assoc_get k' d <> None -> Py.assoc_get k' (Py.assoc_set k x d) <> None.
Proof.
  intros X k x d k'; induction d as [|[k0 x0] rest IH]; simpl; intros H.
  - contradiction.
  - destruct (Py.scalar_eqb k0 k); simpl;
      destruct (Py.scalar_eqb k0 k'); try discriminate; auto.
Qed.

Lemma assoc_set_Forall : forall X (Q : X -> Prop) k x d,
  Forall (fun p => Q (snd p)) d -> Q x ->
  Forall (fun p => Q (snd p)) (Py.assoc_set k x d).
Proof.
  intros X Q k x d Hd Hx; induction Hd as [|[k' x'] rest Hp Hrest IH]; simpl.
  - constructor; [exact Hx | constructor].
  - destruct (Py.scalar_eqb k' k); constructor; auto.
Qed.

Lemma setitem_Ret : forall X k (x : X) d d',
  Py.setitem k x d = Ret d' -> Py.hashable k = true /\ d' = Py.assoc_set k x d.
Proof.
  intros X k x d d' H. unfold Py.setitem in H.
  destruct (Py.hashable k); [injection H as <-; auto | discriminate].
Qed.

Lemma lift_Ret : forall A (o : outcome A) w w' a,
  lift o w = (w', Ret a) -> o = Ret a.
Proof. intros A o w w' a H. unfold lift in H. now injection H. Qed.

Lemma repos_loop_sparse : forall api own org repos org_results,
  org_sparse org_results ->
  yields org_sparse (repos_loop api own org repos org_results).
Proof.
  intros api own org repos; induction repos as [|repo rest IH];
    intros org_results H; simpl.
  - now apply yields_ret.
  - apply yields_bind; intros repo_name _ _ _.
    apply yields_bind; intros files _ _ _.
    destruct files as [|wf files]; [now apply IH|].
    apply yields_bind; intros inventory _ _ _.
    destruct inventory as [|e inventory]; [now apply IH|].
    apply yields_bind; intros org_results' w w1 E.
    apply lift_Ret, setitem_Ret in E as [_ ->].
    apply IH. apply (assoc_set_Forall _ (fun x => x <> [])); [exact H | discriminate].
Qed.

Lemma orgs_loop_sparse : forall api fuel own orgs results,
  sparse results ->
  yields sparse (orgs_loop api fuel own orgs results).
Proof.
  intros api fuel own orgs; induction orgs as [|org rest IH];
    intros results H; simpl.
  - now apply yields_ret.
  - apply yields_bind; intros repos _ _ _.
    destruct repos as [|repo repos]; [now apply IH|].
    apply yields_bind; intros org_results w w1 E.
    apply repos_loop_sparse in E; [|constructor].
    destruct org_results as [|p org_results]; [now apply IH|].
    apply yields_bind; intros results' w2 w3 E'.
    apply lift_Ret, setitem_Ret in E' as [_ ->].
    apply IH.
    apply (assoc_set_Forall _ (fun x => x <> [] /\ org_sparse x)); [exact H|].
    split; [discriminate | exact E].
Qed.

(** *** The report file is written once, at the end *)

Lemma log_keeps_gated_call : forall api (I : world -> Prop),
  (forall e w, I w -> I (log e w)) ->
  forall A (r : request) (k : response -> M A),
    crawl_call r = true ->
    (forall resp, keeps I (k resp)) ->
    keeps I (enforce_rate_limit api ;; resp <- requests_get api r ;; k resp).
Proof.
  intros api I Hlog A r k _ Hk.
  apply keeps_bind.
  - intros w H. rewrite enforce_rate_limit_eq.
    destruct (gate_action api (trace w)) as [[t|]| | |]; simpl; auto.
  - intros _. apply keeps_bind; [|exact Hk].
    intros w H. unfold requests_get.
    destruct (respond api (trace w) r); simpl; auto.
Qed.

Lemma fetch_orgs_keeps_results : forall api,
  keeps (fun w => results_file w = None) (fetch_orgs api).
Proof.
  intros api w H. unfold fetch_orgs, bind, requests_get.
  destruct (respond api (trace w) GetUserOrgs) as [resp|]; [|exact H].
  destruct (status_code resp =? 200)%Z; [|exact H].
  unfold json. destruct (parsed resp) as [body|]; [|exact H].
  unfold ret, lift.
  destruct (Py.iterate body) as [items| | |]; try exact H.
  destruct (Py.comprehension _ items); exact H.
Qed.

(** A report on disk after [main] is what the loop over the loaded
    organizations returned. *)
Lemma main_report : forall api fuel w r,
  results_file w = None ->
  results_file (fst (main api fuel w)) = Some r ->
  exists orgs org_list own w1 w',
    load_orgs api w = (w1, Ret orgs)
    /\ Py.iterate orgs = Ret org_list
    /\ Py.comprehension Py.lower org_list = Ret own
    /\ orgs_loop api fuel own org_list [] w1 = (w', Ret r).
Proof.
  intros api fuel w r Hnone Hr. unfold main in Hr.
  destruct (token_missing w); [simpl in Hr; congruence|].
  unfold bind at 1 in Hr.
  pose proof (load_orgs_keeps api (fun w => results_file w = None)
                (fetch_orgs_keeps_results api) w Hnone) as Hload.
  destruct (load_orgs api w) as [w1 [orgs| | |]] eqn:L; simpl in Hload;
    try (simpl in Hr; congruence).
  destruct (negb (Py.truthy orgs)); [simpl in Hr; congruence|].
  unfold bind at 1, lift at 1 in Hr.
  destruct (Py.iterate orgs) as [org_list| | |] eqn:It;
    try (simpl in Hr; congruence).
  unfold bind at 1, lift at 1 in Hr.
  destruct (Py.comprehension Py.lower org_list) as [own| | |] eqn:Lo;
    try (simpl in Hr; congruence).
  unfold bind in Hr.
  pose proof (orgs_loop_keeps api (fun w => results_file w = None)
                (log_keeps_gated_call api (fun w => results_file w = None)
                   (fun e w H => H))
                fuel own org_list [] w1 Hload) as Hloop.
  destruct (orgs_loop api fuel own org_list [] w1) as [w' [results| | |]] eqn:E;
    simpl in Hloop; try (simpl in Hr; congruence).
  simpl in Hr. injection Hr as ->. now exists orgs, org_list, own, w1, w'.
Qed.

Lemma assoc_get_In : forall X k (d : list (value * X)) x,
  Py.assoc_get k d = Some x -> exists k', In (k', x) d.
Proof.
  intros X k d x; induction d as [|[k0 x0] rest IH]; simpl; intros H;
    [discriminate|].
  destruct (Py.scalar_eqb k0 k).
  - injection H as ->. exists k0. now left.
  - destruct (IH H) as [k' Hin]. exists k'. now right.
Qed.

Lemma sparse_pairs : forall r org repo,
  sparse r -> has_pair r org repo = true -> entries_of r org repo <> [].
Proof.
  intros r org repo Hs Hp. unfold has_pair in Hp. unfold entries_of.
  destruct (Py.assoc_get org r) as [org_results|] eqn:Eo; [|discriminate].
  destruct (Py.assoc_get repo org_results) as [entries|] eqn:Er; [|discriminate].
  apply assoc_get_In in Eo as [k Ho]. apply assoc_get_In in Er as [k' Hr].
  unfold sparse in Hs. rewrite Forall_forall in Hs.
  destruct (Hs _ Ho) as [_ Hos]. simpl in Hos.
  unfold org_sparse in Hos. rewrite Forall_forall in Hos.
  exact (Hos _ Hr).
Qed.

(** *** One step of each loop *)

Lemma orgs_loop_no_repos : forall api fuel own org rest results w w1,
  fetch_all_repos api fuel org w = (w1, Ret []) ->
  orgs_loop api fuel own (org :: rest) results w
  = orgs_loop api fuel own rest results w1.
Proof.
  intros api fuel own org rest results w w1 H. simpl. unfold bind.
  now rewrite H.
Qed.

Lemma fetch_workflow_files_not_found : forall api org repo_name w w1 resp,
  enforce_rate_limit api w = (w1, Ret tt) ->
  respond api (trace w1) (GetWorkflows org repo_name) = Some resp ->
  status_code resp = 404%Z ->
  fetch_workflow_files api org repo_name w
  = (log (EvRequest (GetWorkflows org repo_name)) w1, Ret []).
Proof.
  intros api org repo_name w w1 resp Hg Hr Hs.
  unfold fetch_workflow_files, bind. rewrite Hg. unfold requests_get.
  rewrite Hr, Hs. reflexivity.
Qed.

Lemma repos_loop_no_files : forall api own org repo rest org_results w w1 repo_name,
  Py.subscript repo "name" = Ret repo_name ->
  fetch_workflow_files api org repo_name w = (w1, Ret []) ->
  repos_loop api own org (repo :: rest) org_results w
  = repos_loop api own org rest org_results w1.
Proof.
  intros api own org repo rest org_results w w1 repo_name Hn Hf.
  cbn [repos_loop]. unfold bind at 1, lift at 1. rewrite Hn.
  unfold bind at 1. now rewrite Hf.
Qed.

Lemma repos_loop_no_refs : forall api own org repo rest org_results w w1 w2
                                  repo_name wf files,
  Py.subscript repo "name" = Ret repo_name ->
  fetch_workflow_files api org repo_name w = (w1, Ret (wf :: files)) ->
  files_loop api own (wf :: files) [] w1 = (w2, Ret []) ->
  repos_loop api own org (repo :: rest) org_results w
  = repos_loop api own org rest org_results w2.
Proof.
  intros api own org repo rest org_results w w1 w2 repo_name wf files Hn Hf Hl.
  cbn [repos_loop]. unfold bind at 1, lift at 1. rewrite Hn.
  unfold bind at 1. rewrite Hf. unfold bind at 1. now rewrite Hl.
Qed.

Lemma repos_loop_records : forall api own org repo rest org_results w w1 w2
                                  repo_name wf files e inventory,
  Py.subscript repo "name" = Ret repo_name ->
  fetch_workflow_files api org repo_name w = (w1, Ret (wf :: files)) ->
  files_loop api own (wf :: files) [] w1 = (w2, Ret (e :: inventory)) ->
  Py.hashable repo_name = true ->
  repos_loop api own org (repo :: rest) org_results w
  = repos_loop api own org rest
      (Py.assoc_set repo_name (e :: inventory) org_results) w2.
Proof.
  intros api own org repo rest org_results w w1 w2 repo_name wf files e inventory
    Hn Hf Hl Hh.
  cbn [repos_loop]. unfold bind at 1, lift at 1. rewrite Hn.
  unfold bind at 1. rewrite Hf. unfold bind at 1. rewrite Hl.
  unfold bind, lift, Py.setitem. now rewrite Hh.
Qed.

(** *** Keys are never removed *)

Lemma repos_loop_keeps_keys : forall api own org k repos org_results,
  Py.assoc_get k org_results <> None ->
  yields (fun r => Py.assoc_get k r <> None)
    (repos_loop api own org repos org_results).
Proof.
  intros api own org k repos; induction repos as [|repo rest IH];
    intros org_results H; simpl.
  - now apply yields_ret.
  - apply yields_bind; intros repo_name _ _ _.
    apply yields_bind; intros files _ _ _.
    destruct files as [|wf files]; [now apply IH|].
    apply yields_bind; intros inventory _ _ _.
    destruct inventory as [|e inventory]; [now apply IH|].
    apply yields_bind; intros org_results' w w1 E.
    apply lift_Ret, setitem_Ret in E as [_ ->].
    apply IH. now apply assoc_set_keeps_keys.
Qed.

(** *** Splitting a loop *)

Lemma bind_Ret : forall A B (m : M A) (f : A -> M B) w w' b,
  bind m f w = (w', Ret b) ->
  exists w1 a, m w = (w1, Ret a) /\ f a w1 = (w', Ret b).
Proof.
  intros A B m f w w' b H. unfold bind in H.
  destruct (m w) as [w1 [a| | |]]; try discriminate. now exists w1, a.
Qed.

(** The loop over [repos1 ++ repos2] is the loop over [repos1], then the
    loop over [repos2] from where the first one stopped. *)
Lemma repos_loop_app : forall api own org repos1 repos2 org_results w,
  repos_loop api own org (repos1 ++ repos2) org_results w
  = match repos_loop api own org repos1 org_results w with
    | (w1, Ret acc) => repos_loop api own org repos2 acc w1
    | (w1, Raise e) => (w1, Raise e)
    | (w1, Exit c) => (w1, Exit c)
    | (w1, OutOfFuel) => (w1, OutOfFuel)
    end.
Proof.
  intros api own org repos1 repos2; induction repos1 as [|repo rest IH];
    intros org_results w; [reflexivity|].
  cbn [app repos_loop]. unfold bind, lift.
  destruct (Py.subscript repo "name") as [repo_name| | |]; try reflexivity.
  destruct (fetch_workflow_files api org repo_name w) as [w1 [files| | |]];
    try reflexivity.
  destruct files as [|wf files]; [apply IH|].
  destruct (files_loop api own (wf :: files) [] w1) as [w2 [inventory| | |]];
    try reflexivity.
  destruct inventory as [|e inventory]; [apply IH|].
  unfold Py.setitem. destruct (Py.hashable repo_name); try reflexivity.
  apply IH.
Qed.

Lemma orgs_loop_app : forall api fuel own orgs1 orgs2 results w,
  orgs_loop api fuel own (orgs1 ++ orgs2) results w
  = match orgs_loop api fuel own orgs1 results w with
    | (w1, Ret acc) => orgs_loop api fuel own orgs2 acc w1
    | (w1, Raise e) => (w1, Raise e)
    | (w1, Exit c) => (w1, Exit c)
    | (w1, OutOfFuel) => (w1, OutOfFuel)
    end.
Proof.
  intros api fuel own orgs1 orgs2; induction orgs1 as [|org rest IH];
    intros results w; [reflexivity|].
  cbn [app orgs_loop]. unfold bind, lift.
  destruct (fetch_all_repos api fuel org w) as [w1 [repos| | |]]; try reflexivity.
  destruct repos as [|repo repos]; [apply IH|].
  destruct (repos_loop api own org (repo :: repos) [] w1)
    as [w2 [org_results| | |]]; try reflexivity.
  destruct org_results as [|p org_results]; [apply IH|].
  unfold Py.setitem. destruct (Py.hashable org); try reflexivity.
  apply IH.
Qed.

(** *** A repository with references is in the report *)

Lemma scalar_eqb_common : forall a b c,
  Py.scalar_eqb a b = true -> Py.scalar_eqb a c = true -> Py.scalar_eqb b c = true.
Proof.
  intros a b c Hab Hac.
  destruct a, b; simpl in Hab; try discriminate;
    destruct c; simpl in Hac; try discriminate; simpl;
    try reflexivity;
    try (apply Z.eqb_eq in Hab; apply Z.eqb_eq in Hac; apply Z.eqb_eq; congruence).
  apply String.eqb_eq in Hab. apply String.eqb_eq in Hac.
  apply String.eqb_eq. congruence.
Qed.

Lemma assoc_get_set_other : forall X o k (x : X) d,
  Py.scalar_eqb o k = false ->
  Py.assoc_get k (Py.assoc_set o x d) = Py.assoc_get k d.
Proof.
  intros X o k x d Hne; induction d as [|[k0 x0] rest IH]; simpl.
  - now rewrite Hne.
  - destruct (Py.scalar_eqb k0 o) eqn:E0; simpl.
    + destruct (Py.scalar_eqb k0 k) eqn:E1; [|reflexivity].
      rewrite (scalar_eqb_common _ _ _ E0 E1) in Hne. discriminate.
    + destruct (Py.scalar_eqb k0 k); [reflexivity | exact IH].
Qed.

(** Organizations other than [k] leave the entry of [k] alone. *)
Lemma orgs_loop_other_keys : forall api fuel own k orgs results v,
  forallb (fun o => negb (Py.scalar_eqb o k)) orgs = true ->
  Py.assoc_get k results = v ->
  yields (fun r => Py.assoc_get k r = v) (orgs_loop api fuel own orgs results).
Proof.
  intros api fuel own k orgs; induction orgs as [|org rest IH];
    intros results v Hne H; simpl.
  - now apply yields_ret.
  - simpl in Hne. apply andb_true_iff in Hne as [Ho Hrest].
    apply negb_true_iff in Ho.
    apply yields_bind; intros repos _ _ _.
    destruct repos as [|repo repos]; [now apply IH|].
    apply yields_bind; intros org_results _ _ _.
    destruct org_results as [|p org_results]; [now apply IH|].
    apply yields_bind; intros results' w2 w3 E'.
    apply lift_Ret, setitem_Ret in E' as [_ ->].
    apply IH; [exact Hrest|]. now rewrite assoc_get_set_other.
Qed.

(** A repository reached by the loop whose files yield at least one
    reference has its name among the keys when the loop returns. *)
Lemma repos_loop_reached : forall api own org repos1 repo repos2 acc w w' r',
  repos_loop api own org (repos1 ++ repo :: repos2) acc w = (w', Ret r') ->
  exists ws acc1,
    repos_loop api own org repos1 acc w = (ws, Ret acc1)
    /\ forall repo_name wa wb wf files e inventory,
         Py.subscript repo "name" = Ret repo_name ->
         fetch_workflow_files api org repo_name ws = (wa, Ret (wf :: files)) ->
         files_loop api own (wf :: files) [] wa = (wb, Ret (e :: inventory)) ->
         Py.assoc_get repo_name r' <> None.
Proof.
  intros api own org repos1 repo repos2 acc w w' r' H.
  rewrite repos_loop_app in H.
  destruct (repos_loop api own org repos1 acc w) as [ws [acc1| | |]];
    try discriminate.
  exists ws, acc1. split; [reflexivity|].
  intros repo_name wa wb wf files e inventory Hn Hf Hl.
  destruct (Py.hashable repo_name) eqn:Hh.
  - rewrite (repos_loop_records api own org repo repos2 acc1 ws wa wb repo_name
               wf files e inventory Hn Hf Hl Hh) in H.
    eapply repos_loop_keeps_keys; [|exact H].
    rewrite assoc_get_set by exact Hh. discriminate.
  - cbn [repos_loop] in H. unfold bind, lift in H.
    rewrite Hn, Hf, Hl in H. unfold Py.setitem in H. rewrite Hh in H.
    discriminate.
Qed.

(** The same for the whole crawl: when the organization is not crawled
    again later, the pair is in the final report. *)
Lemma orgs_loop_reached : forall api fuel own orgs1 org orgs2 results w w' r,
  orgs_loop api fuel own (orgs1 ++ org :: orgs2) results w = (w', Ret r) ->
  forallb (fun o => negb (Py.scalar_eqb o org)) orgs2 = true ->
  exists wo results1,
    orgs_loop api fuel own orgs1 results w = (wo, Ret results1)
    /\ forall wr repos1 repo repos2,
         fetch_all_repos api fuel org wo = (wr, Ret (repos1 ++ repo :: repos2)) ->
         exists ws acc1,
           repos_loop api own org repos1 [] wr = (ws, Ret acc1)
           /\ forall repo_name wa wb wf files e inventory,
                Py.subscript repo "name" = Ret repo_name ->
                fetch_workflow_files api org repo_name ws = (wa, Ret (wf :: files)) ->
                files_loop api own (wf :: files) [] wa = (wb, Ret (e :: inventory)) ->
                has_pair r org repo_name = true.
Proof.
  intros api fuel own orgs1 org orgs2 results w w' r H Hlater.
  rewrite orgs_loop_app in H.
  destruct (orgs_loop api fuel own orgs1 results w) as [wo [results1| | |]];
    try discriminate.
  exists wo, results1. split; [reflexivity|].
  intros wr repos1 repo repos2 Hfetch.
  cbn [orgs_loop] in H. unfold bind at 1 in H. rewrite Hfetch in H.
  destruct (repos1 ++ repo :: repos2) as [|r0 rs] eqn:Erepos;
    [now destruct repos1|].
  apply bind_Ret in H as [w4 [org_results [Hrepos H]]].
  rewrite <- Erepos in Hrepos.
  destruct (repos_loop_reached _ _ _ _ _ _ _ _ _ _ Hrepos) as [ws [acc1 [Hpre Hkey]]].
  exists ws, acc1. split; [exact Hpre|].
  intros repo_name wa wb wf files e inventory Hn Hf Hl.
  specialize (Hkey repo_name wa wb wf files e inventory Hn Hf Hl).
  destruct org_results as [|p org_results]; [now elim Hkey|].
  apply bind_Ret in H as [w5 [results' [Hset H]]].
  apply lift_Ret, setitem_Ret in Hset as [Hh ->].
  pose proof (orgs_loop_other_keys api fuel own org orgs2 _ _ Hlater
                (assoc_get_set _ org (p :: org_results) results1 Hh) _ _ _ H) as Hget.
  simpl in Hget. unfold has_pair. rewrite Hget.
  destruct (Py.assoc_get repo_name (p :: org_results)); [reflexivity | now elim Hkey].
Qed.

(** *** Every key comes from an extraction *)

Lemma scalar_eqb_sym : forall a b,
  Py.scalar_eqb a b = true -> Py.scalar_eqb b a = true.
Proof.
  intros a b H.
  destruct a, b; simpl in *; try discriminate; try reflexivity;
    try (apply Z.eqb_eq in H; apply Z.eqb_eq; congruence).
  apply String.eqb_eq in H. apply String.eqb_eq. congruence.
Qed.

Lemma scalar_eqb_trans : forall a b c,
  Py.scalar_eqb a b = true -> Py.scalar_eqb b c = true -> Py.scalar_eqb a c = true.
Proof.
  intros a b c Hab Hbc. apply scalar_eqb_sym in Hab.
  exact (scalar_eqb_common _ _ _ Hab Hbc).
Qed.

Lemma assoc_get_set_same : forall X o k (x : X) d,
  Py.scalar_eqb o k = true -> Py.assoc_get k (Py.assoc_set o x d) = Some x.
Proof.
  intros X o k x d Hok; induction d as [|[k0 x0] rest IH]; simpl.
  - now rewrite Hok.
  - destruct (Py.scalar_eqb k0 o) eqn:E0; simpl.
    + now rewrite (scalar_eqb_trans _ _ _ E0 Hok).
    + destruct (Py.scalar_eqb k0 k) eqn:E1; [|exact IH].
      rewrite (scalar_eqb_trans _ _ _ E1 (scalar_eqb_sym _ _ Hok)) in E0.
      discriminate.
Qed.

(** Equal keys read the same entry. *)
Lemma assoc_get_eqb : forall X k k' (d : list (value * X)),
  Py.scalar_eqb k k' = true -> Py.assoc_get k d = Py.assoc_get k' d.
Proof.
  intros X k k' d H; induction d as [|[k0 x0] rest IH]; simpl; [reflexivity|].
  destruct (Py.scalar_eqb k0 k) eqn:E.
  - now rewrite (scalar_eqb_trans _ _ _ E H).
  - destruct (Py.scalar_eqb k0 k') eqn:E'; [|exact IH].
    rewrite (scalar_eqb_trans _ _ _ E' (scalar_eqb_sym _ _ H)) in E.
    discriminate.
Qed.

Lemma repo_extracted_more : forall api own org wr repos more repo_name entries,
  repo_extracted api own org wr repos repo_name entries ->
  repo_extracted api own org wr (repos ++ more) repo_name entries.
Proof.
  intros api own org wr repos more repo_name entries
    [repos1 [repo [repos2 [ws [acc1 [n [wa [wb [wf [files [-> H]]]]]]]]]]].
  exists repos1, repo, (repos2 ++ more), ws, acc1, n, wa, wb, wf, files.
  split; [now rewrite <- app_assoc | exact H].
Qed.

Lemma org_extracted_more : forall api fuel own w1 orgs more org org_results,
  org_extracted api fuel own w1 orgs org org_results ->
  org_extracted api fuel own w1 (orgs ++ more) org org_results.
Proof.
  intros api fuel own w1 orgs more org org_results
    [orgs1 [org' [orgs2 [wo [results1 [wr [repos [-> H]]]]]]]].
  exists orgs1, org', (orgs2 ++ more), wo, results1, wr, repos.
  split; [now rewrite <- app_assoc | exact H].
Qed.

(** Every key of the result of the loop over the repositories comes from
    an extraction in that loop, and holds the entries of that
    extraction. *)
Lemma repos_loop_provenance : forall api own org wr post pre acc w w' r',
  repos_loop api own org pre [] wr = (w, Ret acc) ->
  repos_loop api own org post acc w = (w', Ret r') ->
  (forall k x, Py.assoc_get k acc = Some x ->
               repo_extracted api own org wr pre k x) ->
  forall k x, Py.assoc_get k r' = Some x ->
              repo_extracted api own org wr (pre ++ post) k x.
Proof.
  intros api own org wr; induction post as [|repo rest IH];
    intros pre acc w w' r' Hpre Hpost Hinv.
  - injection Hpost as <- <-. rewrite app_nil_r. exact Hinv.
  - replace (pre ++ repo :: rest) with ((pre ++ [repo]) ++ rest)
      by (now rewrite <- app_assoc).
    assert (Hstep : forall w2 acc2,
              repos_loop api own org [repo] acc w = (w2, Ret acc2) ->
              repos_loop api own org (pre ++ [repo]) [] wr = (w2, Ret acc2)).
    { intros w2 acc2 E. rewrite repos_loop_app, Hpre. exact E. }
    assert (Hmore : forall k x, Py.assoc_get k acc = Some x ->
                      repo_extracted api own org wr (pre ++ [repo]) k x).
    { intros k x Hget. apply repo_extracted_more. now apply Hinv. }
    destruct (Py.subscript repo "name") as [repo_name| | |] eqn:Hn;
      try (cbn [repos_loop] in Hpost; unfold bind, lift in Hpost;
           rewrite Hn in Hpost; discriminate).
    destruct (fetch_workflow_files api org repo_name w) as [w1 [files| | |]] eqn:Hf;
      try (cbn [repos_loop] in Hpost; unfold bind, lift in Hpost;
           rewrite Hn, Hf in Hpost; discriminate).
    destruct files as [|wf files].
    { rewrite (repos_loop_no_files api own org repo rest acc w w1 repo_name Hn Hf)
        in Hpost.
      apply (IH (pre ++ [repo]) acc w1 w' r'); [|exact Hpost | exact Hmore].
      apply Hstep.
      now rewrite (repos_loop_no_files api own org repo [] acc w w1 repo_name Hn Hf). }
    destruct (files_loop api own (wf :: files) [] w1) as [w2 [inv| | |]] eqn:Hl;
      try (cbn [repos_loop] in Hpost; unfold bind, lift in Hpost;
           rewrite Hn, Hf, Hl in Hpost; discriminate).
    destruct inv as [|e inv].
    { rewrite (repos_loop_no_refs api own org repo rest acc w w1 w2 repo_name
                 wf files Hn Hf Hl) in Hpost.
      apply (IH (pre ++ [repo]) acc w2 w' r'); [|exact Hpost | exact Hmore].
      apply Hstep.
      now rewrite (repos_loop_no_refs api own org repo [] acc w w1 w2 repo_name
                     wf files Hn Hf Hl). }
    destruct (Py.hashable repo_name) eqn:Hh;
      [|cbn [repos_loop] in Hpost; unfold bind, lift, Py.setitem in Hpost;
        rewrite Hn, Hf, Hl, Hh in Hpost; discriminate].
    rewrite (repos_loop_records api own org repo rest acc w w1 w2 repo_name
               wf files e inv Hn Hf Hl Hh) in Hpost.
    apply (IH (pre ++ [repo]) (Py.assoc_set repo_name (e :: inv) acc) w2 w' r');
      [|exact Hpost|].
    + apply Hstep.
      now rewrite (repos_loop_records api own org repo [] acc w w1 w2 repo_name
                     wf files e inv Hn Hf Hl Hh).
    + intros k x Hget. destruct (Py.scalar_eqb repo_name k) eqn:Ek.
      * rewrite (assoc_get_set_same _ _ _ _ _ Ek) in Hget. injection Hget as <-.
        exists pre, repo, [], w, acc, repo_name, w1, w2, wf, files.
        repeat (split; [first [reflexivity | assumption]|]). discriminate.
      * rewrite (assoc_get_set_other _ _ _ _ _ Ek) in Hget. now apply Hmore.
Qed.

(** Every organization key of the result of the loop over the
    organizations comes from a crawl of an organization of that name, and
    every repository key under it from an extraction in that crawl. *)
Lemma orgs_loop_provenance : forall api fuel own w1 post pre results w w' r,
  orgs_loop api fuel own pre [] w1 = (w, Ret results) ->
  orgs_loop api fuel own post results w = (w', Ret r) ->
  (forall k x, Py.assoc_get k results = Some x ->
               org_extracted api fuel own w1 pre k x) ->
  forall k x, Py.assoc_get k r = Some x ->
              org_extracted api fuel own w1 (pre ++ post) k x.
Proof.
  intros api fuel own w1; induction post as [|org rest IH];
    intros pre results w w' r Hpre Hpost Hinv.
  - injection Hpost as <- <-. rewrite app_nil_r. exact Hinv.
  - replace (pre ++ org :: rest) with ((pre ++ [org]) ++ rest)
      by (now rewrite <- app_assoc).
    assert (Hstep : forall w2 acc2,
              orgs_loop api fuel own [org] results w = (w2, Ret acc2) ->
              orgs_loop api fuel own (pre ++ [org]) [] w1 = (w2, Ret acc2)).
    { intros w2 acc2 E. rewrite orgs_loop_app, Hpre. exact E. }
    assert (Hmore : forall k x, Py.assoc_get k results = Some x ->
                      org_extracted api fuel own w1 (pre ++ [org]) k x).
    { intros k x Hget. apply org_extracted_more. now apply Hinv. }
    cbn [orgs_loop] in Hpost. unfold bind at 1 in Hpost.
    destruct (fetch_all_repos api fuel org w) as [wr [repos| | |]] eqn:Hf;
      try discriminate.
    destruct repos as [|repo repos].
    { apply (IH (pre ++ [org]) results wr w' r); [|exact Hpost | exact Hmore].
      apply Hstep. cbn [orgs_loop]. unfold bind. now rewrite Hf. }
    unfold bind at 1 in Hpost.
    destruct (repos_loop api own org (repo :: repos) [] wr)
      as [w2 [org_results| | |]] eqn:Hr; try discriminate.
    destruct org_results as [|p org_results].
    { apply (IH (pre ++ [org]) results w2 w' r); [|exact Hpost | exact Hmore].
      apply Hstep. cbn [orgs_loop]. unfold bind. now rewrite Hf, Hr. }
    unfold bind at 1, lift at 1, Py.setitem in Hpost.
    destruct (Py.hashable org) eqn:Hh; [|discriminate].
    apply (IH (pre ++ [org]) (Py.assoc_set org (p :: org_results) results) w2 w' r);
      [|exact Hpost|].
    + apply Hstep. cbn [orgs_loop]. unfold bind, lift, Py.setitem.
      now rewrite Hf, Hr, Hh.
    + intros k x Hget. destruct (Py.scalar_eqb org k) eqn:Ek.
      * rewrite (assoc_get_set_same _ _ _ _ _ Ek) in Hget. injection Hget as <-.
        exists pre, org, [], w, results, wr, (repo :: repos).
        repeat (split; [first [reflexivity | assumption]|]).
        apply (repos_loop_provenance api own org wr (repo :: repos) [] [] wr w2
                 (p :: org_results) eq_refl Hr).
        intros k0 x0 H0. discriminate.
      * rewrite (assoc_get_set_other _ _ _ _ _ Ek) in Hget. now apply Hmore.
Qed.

(** A pair with a key in the result of the crawl had references
    extracted for it, which are the entries under the key. *)
Lemma keys_are_extracted : forall api fuel own org_list w1 w' r org repo,
  orgs_loop api fuel own org_list [] w1 = (w', Ret r) ->
  has_pair r org repo = true ->
  exists entries,
    extracted api fuel own org_list w1 org repo entries
    /\ entries_of r org repo = entries.
Proof.
  intros api fuel own org_list w1 w' r org repo Hloop Hp.
  unfold has_pair in Hp. unfold entries_of.
  destruct (Py.assoc_get org r) as [org_results|] eqn:Eo; [|discriminate].
  destruct (Py.assoc_get repo org_results) as [entries|] eqn:Er; [|discriminate].
  assert (Hnil : forall k0 x0, Py.assoc_get k0 (@nil (value * org_report)) = Some x0 ->
                   org_extracted api fuel own w1 [] k0 x0)
    by (intros k0 x0 H0; discriminate).
  destruct (orgs_loop_provenance api fuel own w1 org_list [] [] w1 w' r
              eq_refl Hloop Hnil org org_results Eo)
    as [orgs1 [org' [orgs2 [wo [results1 [wr [repos [E [Heq [Hpre [Hf Hkeys]]]]]]]]]]].
  exists entries. split; [|reflexivity].
  exists orgs1, org', orgs2, wo, results1, wr, repos.
  repeat (split; [assumption|]). exact (Hkeys repo entries Er).
Qed.

Lemma distinct_keys_later : forall orgs1 org orgs2,
  distinct_keys (orgs1 ++ org :: orgs2) = true ->
  forallb (fun o => negb (Py.scalar_eqb o org)) orgs2 = true.
Proof.
  induction orgs1 as [|o orgs1 IH]; simpl; intros org orgs2 H;
    apply andb_true_iff in H as [H1 H2]; [exact H1 | now apply IH].
Qed.

(** An extraction in the last crawl of an organization name shows in the
    result of the crawl. *)
Lemma extracted_last_has_pair : forall api fuel own w1 w' r
    orgs1 org' orgs2 wo results1 wr repos org repo entries,
  orgs_loop api fuel own (orgs1 ++ org' :: orgs2) [] w1 = (w', Ret r) ->
  forallb (fun o => negb (Py.scalar_eqb o org')) orgs2 = true ->
  Py.scalar_eqb org' org = true ->
  orgs_loop api fuel own orgs1 [] w1 = (wo, Ret results1) ->
  fetch_all_repos api fuel org' wo = (wr, Ret repos) ->
  repo_extracted api own org' wr repos repo entries ->
  has_pair r org repo = true.
Proof.
  intros api fuel own w1 w' r orgs1 org' orgs2 wo results1 wr repos org repo
    entries Hloop Hlater Heq Hpre Hf
    [repos1 [rp [repos2 [ws [acc1 [n [wa [wb [wf [files
      [-> [Hrl [Hn [Hneq [Hw [Hl Hne]]]]]]]]]]]]]]]].
  destruct (orgs_loop_reached api fuel own orgs1 org' orgs2 [] w1 w' r Hloop Hlater)
    as [wo' [results1' [Hpre' Hreach]]].
  rewrite Hpre in Hpre'. injection Hpre' as <- <-.
  destruct (Hreach wr repos1 rp repos2 Hf) as [ws' [acc1' [Hrl' Hkey]]].
  rewrite Hrl in Hrl'. injection Hrl' as <- <-.
  destruct entries as [|e inv]; [now elim Hne|].
  specialize (Hkey n wa wb wf files e inv Hn Hw Hl).
  unfold has_pair in *. rewrite <- (assoc_get_eqb _ org' org r Heq).
  destruct (Py.assoc_get org' r) as [org_results|]; [|discriminate].
  now rewrite <- (assoc_get_eqb _ n repo org_results Hneq).
Qed.




(** ** Completion of the run *)

Lemma runs_ret : forall A (Q : A -> Prop) a, Q a -> runs (ret a) Q.
Proof. intros A Q a H w. now exists w, a. Qed.

Lemma runs_lift : forall A (Q : A -> Prop) (o : outcome A) a,
  o = Ret a -> Q a -> runs (lift o) Q.
Proof. intros A Q o a -> H w. now exists w, a. Qed.

Lemma runs_bind : forall A B (m : M A) (f : A -> M B) (P : A -> Prop) (Q : B -> Prop),
  runs m P -> (forall a, P a -> runs (f a) Q) -> runs (bind m f) Q.
Proof.
  intros A B m f P Q Hm Hf w. unfold bind.
  destruct (Hm w) as [w1 [a [-> Ha]]]. exact (Hf a Ha w1).
Qed.

Lemma runs_requests_get : forall api r (P : response -> Prop),
  (forall h, exists resp, respond api h r = Some resp /\ P resp) ->
  runs (requests_get api r) P.
Proof.
  intros api r P H w. unfold requests_get.
  destruct (H (trace w)) as [resp [-> Hp]]. eauto.
Qed.

Lemma runs_json : forall resp v,
  parsed resp = Some v -> runs (json resp) (fun b => b = v).
Proof.
  intros resp v H. unfold json. rewrite H. now apply runs_ret.
Qed.

Section Completion.

Variable api : remote.
Variable pages : nat.
Hypothesis server : well_behaved api pages.

Lemma enforce_rate_limit_runs : runs (enforce_rate_limit api) (fun _ => True).
Proof.
  intros w. rewrite enforce_rate_limit_eq. unfold gate_action.
  destruct (wb_quota api pages server (trace w)) as [resp [-> Hq]].
  unfold Shape.quota_ok in Hq.
  destruct (read_quota resp) as [[remaining reset_time]| | |]; try discriminate.
  simpl. destruct (Py.scalar_eqb remaining (VInt 0)); [|eauto].
  destruct (Py.as_int reset_time) as [reset|]; [|discriminate].
  apply Z.leb_le in Hq. cbv zeta.
  destruct (sleep_max <? _)%Z eqn:E; [apply Z.ltb_lt in E; lia | eauto].
Qed.

Lemma fetch_all_repos_loop_runs : forall f org page repos,
  (Z.of_nat pages < page + Z.of_nat f)%Z ->
  forallb Shape.repo_ok repos = true ->
  runs (fetch_all_repos_loop api (S f) org repos page)
    (fun repos' => forallb Shape.repo_ok repos' = true).
Proof.
  induction f as [|f IH]; intros org page repos Hpages Hrepos;
    cbn [fetch_all_repos_loop].
  - apply (runs_bind _ _ _ _ _ _ enforce_rate_limit_runs). intros _ _.
    apply (runs_bind _ _ _ _
             (fun resp => Shape.page_ok resp = true /\ Shape.last_page resp = true)).
    + apply runs_requests_get. intros h.
      destruct (wb_page api pages server h org page) as [resp [R [Hp Hl]]].
      exists resp. repeat split; auto. apply Hl. lia.
    + intros resp [_ Hl]. unfold Shape.last_page in Hl.
      destruct (status_code resp =? 200)%Z; simpl in *; [|now apply runs_ret].
      destruct (parsed resp) as [[| | | |[|x xs]|]|] eqn:Ep; try discriminate.
      apply (runs_bind _ _ _ _ _ _ (runs_json resp _ Ep)). intros b ->.
      simpl. now apply runs_ret.
  - apply (runs_bind _ _ _ _ _ _ enforce_rate_limit_runs). intros _ _.
    apply (runs_bind _ _ _ _ (fun resp => Shape.page_ok resp = true)).
    + apply runs_requests_get. intros h.
      destruct (wb_page api pages server h org page) as [resp [R [Hp _]]].
      now exists resp.
    + intros resp Hp. unfold Shape.page_ok in Hp.
      destruct (status_code resp =? 200)%Z; simpl in *; [|now apply runs_ret].
      destruct (parsed resp) as [[| | | |batch|]|] eqn:Ep; try discriminate.
      apply (runs_bind _ _ _ _ _ _ (runs_json resp _ Ep)). intros b ->.
      destruct batch as [|x xs]; simpl; [now apply runs_ret|].
      apply (runs_bind _ _ _ _ (fun items => items = x :: xs));
        [now apply (runs_lift _ _ _ (x :: xs))|].
      intros items ->.
      apply IH; [lia|]. rewrite forallb_app. now rewrite Hrepos, Hp.
Qed.

Lemma items_loop_returns : forall items files,
  forallb Shape.item_ok items = true ->
  forallb Shape.file_url_ok items = true ->
  Forall (fun wf => Shape.is_url (download_url wf) = true) files ->
  exists files',
    items_loop items files = Ret files'
    /\ Forall (fun wf => Shape.is_url (download_url wf) = true) files'.
Proof.
  induction items as [|item rest IH]; intros files H Hu Hf; simpl; [eauto|].
  simpl in H. apply andb_true_iff in H as [Hi Hrest].
  simpl in Hu. apply andb_true_iff in Hu as [Hui Hurest].
  destruct item; simpl in Hi; try discriminate.
  unfold Shape.file_url_ok in Hui. simpl in Hui. simpl.
  destruct (Py.dict_get "type" kvs) as [ty|]; [|discriminate]. simpl.
  destruct (Py.scalar_eqb ty (VStr "file")); [|now apply IH].
  unfold Py.contains in Hi.
  destruct (Py.dict_get "name" kvs); [|discriminate].
  destruct (Py.dict_get "path" kvs); [|discriminate].
  destruct (Py.dict_get "download_url" kvs); [|discriminate].
  simpl. apply IH; try assumption.
  apply Forall_app. split; [exact Hf|]. constructor; [exact Hui | constructor].
Qed.

Lemma fetch_workflow_files_runs : forall org repo_name,
  runs (fetch_workflow_files api org repo_name)
    (Forall (fun wf => Shape.is_url (download_url wf) = true)).
Proof.
  intros org repo_name. unfold fetch_workflow_files.
  apply (runs_bind _ _ _ _ _ _ enforce_rate_limit_runs). intros _ _.
  apply (runs_bind _ _ _ _ (fun resp => Shape.listing_ok resp = true)).
  - apply runs_requests_get. intros h. apply (wb_listing api pages server h).
  - intros resp Hl. unfold Shape.listing_ok in Hl.
    destruct (status_code resp =? 404)%Z; [now apply runs_ret|].
    destruct (status_code resp =? 200)%Z; simpl in *; [|now apply runs_ret].
    destruct (parsed resp) as [body|] eqn:Ep; [|discriminate].
    apply (runs_bind _ _ _ _ _ _ (runs_json resp _ Ep)). intros b ->.
    destruct body; try (now apply runs_ret).
    apply andb_true_iff in Hl as [Hi Hu].
    destruct (items_loop_returns xs [] Hi Hu (Forall_nil _)) as [files [E Hf]].
    now apply (runs_lift _ _ _ files).
Qed.

Lemma parse_workflow_file_runs : forall download_url,
  Shape.is_url download_url = true ->
  runs (parse_workflow_file api download_url)
    (fun refs => forallb is_str refs = true).
Proof.
  intros url Hurl. unfold parse_workflow_file.
  apply (runs_bind _ _ _ _ _ _ enforce_rate_limit_runs). intros _ _.
  apply (runs_bind _ _ _ _ (fun resp => Shape.raw_ok resp = true)).
  - apply runs_requests_get. intros h. now apply (wb_raw api pages server h).
  - intros resp Hr. unfold Shape.raw_ok in Hr.
    destruct (status_code resp =? 200)%Z; simpl in *; [|now apply runs_ret].
    destruct (parsed resp) as [doc|]; [|now apply runs_ret].
    destruct doc; try (now apply runs_ret). simpl in Hr. unfold extract_uses.
    destruct (Py.dict_get "jobs" kvs) as [[| | | | |jobs]|];
      try (now apply runs_ret).
    apply andb_true_iff in Hr as [Hd Hs].
    apply (runs_lift _ _ _ _ (jobs_loop_spec jobs [] Hd)). exact Hs.
Qed.

Lemma refs_loop_returns : forall own wf uses_list inventory,
  forallb is_str uses_list = true ->
  exists inventory', refs_loop own wf uses_list inventory = Ret inventory'.
Proof.
  intros own wf uses_list; induction uses_list as [|ref rest IH];
    intros inventory H; simpl; [eauto|].
  simpl in H. apply andb_true_iff in H as [Hs Hrest].
  destruct ref; try discriminate. simpl. now apply IH.
Qed.

Lemma files_loop_runs : forall own files inventory,
  Forall (fun wf => Shape.is_url (download_url wf) = true) files ->
  runs (files_loop api own files inventory) (fun _ => True).
Proof.
  intros own files; induction files as [|wf rest IH]; intros inventory Hu;
    cbn [files_loop]; [now apply runs_ret|].
  inversion Hu as [|wf' rest' Hwf Hrest]; subst.
  apply (runs_bind _ _ _ _ _ _ (parse_workflow_file_runs (download_url wf) Hwf)).
  intros uses_list Hs.
  destruct (refs_loop_returns own wf uses_list inventory Hs) as [inv E].
  apply (runs_bind _ _ _ _ (fun _ => True)); [now apply (runs_lift _ _ _ inv)|].
  intros inv' _. now apply IH.
Qed.

Lemma repos_loop_runs : forall own org repos org_results,
  forallb Shape.repo_ok repos = true ->
  runs (repos_loop api own org repos org_results) (fun _ => True).
Proof.
  intros own org repos; induction repos as [|repo rest IH];
    intros org_results H; cbn [repos_loop]; [now apply runs_ret|].
  simpl in H. apply andb_true_iff in H as [Hr Hrest].
  destruct repo; simpl in Hr; try discriminate.
  destruct (Py.dict_get "name" kvs) as [repo_name|] eqn:En; [|discriminate].
  apply (runs_bind _ _ _ _ (fun n => n = repo_name)).
  { apply (runs_lift _ _ _ repo_name); [|reflexivity]. simpl. now rewrite En. }
  intros n ->.
  apply (runs_bind _ _ _ _ _ _ (fetch_workflow_files_runs org repo_name)).
  intros files Hu. destruct files as [|wf files]; [now apply IH|].
  apply (runs_bind _ _ _ _ _ _ (files_loop_runs own (wf :: files) [] Hu)).
  intros inventory _. destruct inventory as [|e inventory]; [now apply IH|].
  apply (runs_bind _ _ _ _ (fun _ => True)).
  - eapply runs_lift; [|exact I]. unfold Py.setitem. now rewrite Hr.
  - intros acc _. now apply IH.
Qed.

Lemma orgs_loop_runs : forall fuel own orgs results,
  pages < fuel ->
  forallb is_str orgs = true ->
  runs (orgs_loop api fuel own orgs results) (fun _ => True).
Proof.
  intros fuel own orgs; induction orgs as [|org rest IH];
    intros results Hfuel H; cbn [orgs_loop]; [now apply runs_ret|].
  simpl in H. apply andb_true_iff in H as [Ho Hrest].
  destruct fuel as [|f]; [lia|].
  apply (runs_bind _ _ _ _ (fun repos => forallb Shape.repo_ok repos = true)).
  { apply fetch_all_repos_loop_runs; [lia | reflexivity]. }
  intros repos Hrepos. destruct repos as [|repo repos]; [now apply IH|].
  apply (runs_bind _ _ _ _ _ _ (repos_loop_runs own org (repo :: repos) [] Hrepos)).
  intros org_results _. destruct org_results as [|p org_results]; [now apply IH|].
  apply (runs_bind _ _ _ _ (fun _ => True)).
  - eapply runs_lift; [|exact I]. unfold Py.setitem.
    destruct org; try discriminate. reflexivity.
  - intros acc _. now apply IH.
Qed.

End Completion.

(** With a credential, a non-empty list of organization names and a
    well-behaved server, the loop over the organizations returns, and the
    run writes its result and returns, whatever the status codes. *)
Lemma main_runs : forall api fuel pages w w1 org_list,
  token_missing w = false ->
  load_orgs api w = (w1, Ret (VList org_list)) ->
  org_list <> [] ->
  forallb is_str org_list = true ->
  well_behaved api pages ->
  pages < fuel ->
  exists own w2 results,
    Py.comprehension Py.lower org_list = Ret own
    /\ orgs_loop api fuel own org_list [] w1 = (w2, Ret results)
    /\ main api fuel w = (set_results_file results w2, Ret tt).
Proof.
  intros api fuel pages w w1 org_list Htok Hload Hne Hstr Hwb Hfuel.
  destruct (lower_strings org_list Hstr) as [own Hown].
  destruct (orgs_loop_runs api pages Hwb fuel own org_list [] Hfuel Hstr w1)
    as [w' [results [E _]]].
  exists own, w', results. split; [exact Hown|]. split; [exact E|].
  rewrite (main_after_startup api fuel w w1 (VList org_list) org_list own
             Htok Hload); try assumption; try reflexivity.
  - now rewrite E.
  - destruct org_list; [contradiction | reflexivity].
Qed.

(** A pagination that returns has asked for its first page. *)
Lemma fetch_all_repos_loop_asks : forall api fuel org repos page w w1 out,
  fetch_all_repos_loop api fuel org repos page w = (w1, Ret out) ->
  In (EvRequest (GetOrgRepos org page)) (trace w1).
Proof.
  intros api fuel org repos page w w1 out H.
  destruct fuel as [|f]; [discriminate|].
  cbn [fetch_all_repos_loop] in H. unfold bind at 1 in H.
  destruct (enforce_rate_limit api w) as [w0 [[]| | |]]; try discriminate.
  unfold bind at 1, requests_get in H.
  destruct (respond api (trace w0) (GetOrgRepos org page)) as [resp|];
    [|discriminate].
  set (I := fun w : world => In (EvRequest (GetOrgRepos org page)) (trace w)).
  assert (Hlog : forall e w, I w -> I (log e w)) by (intros e w' Hi; now right).
  match type of H with
  | ?k _ = _ => assert (Hk : keeps I k)
  end.
  { keeps_step; [keeps_step|].
    apply keeps_bind; [keeps_step|]. intros batch.
    keeps_step; [keeps_step|].
    apply keeps_bind; [keeps_step|]. intros items.
    apply fetch_all_repos_loop_keeps. now apply log_keeps_gated_call. }
  specialize (Hk (log (EvRequest (GetOrgRepos org page)) w0)).
  rewrite H in Hk. apply Hk. now left.
Qed.

(** A loop over the organizations that returns has asked for the first
    repository page of each of them. *)
Lemma orgs_loop_asks_each : forall api fuel own orgs results w w' r,
  orgs_loop api fuel own orgs results w = (w', Ret r) ->
  forall org, In org orgs -> In (EvRequest (GetOrgRepos org 1)) (trace w').
Proof.
  intros api fuel own orgs; induction orgs as [|org rest IH];
    intros results w w' r H org0 Hin; [contradiction|].
  cbn [orgs_loop] in H. unfold bind at 1 in H.
  destruct (fetch_all_repos api fuel org w) as [w1 [repos| | |]] eqn:E;
    try discriminate.
  destruct Hin as [<- | Hin].
  - set (I := fun w : world => In (EvRequest (GetOrgRepos org 1)) (trace w)).
    assert (Hlog : forall e w, I w -> I (log e w)) by (intros e w0 Hi; now right).
    pose proof (log_keeps_gated_call api I Hlog) as Hg.
    match type of H with
    | ?k _ = _ => assert (Hk : keeps I k)
    end.
    { destruct repos as [|repo repos]; [now apply orgs_loop_keeps|].
      apply keeps_bind; [now apply repos_loop_keeps|]. intros org_results.
      destruct org_results as [|p org_results]; [now apply orgs_loop_keeps|].
      apply keeps_bind; [keeps_step|]. intros results'.
      now apply orgs_loop_keeps. }
    specialize (Hk w1). rewrite H in Hk. apply Hk.
    exact (fetch_all_repos_loop_asks api fuel org [] 1%Z w w1 repos E).
  - destruct repos as [|repo repos]; [exact (IH _ _ _ _ H org0 Hin)|].
    unfold bind at 1 in H.
    destruct (repos_loop api own org (repo :: repos) [] w1)
      as [w2 [org_results| | |]]; try discriminate.
    destruct org_results as [|p org_results]; [exact (IH _ _ _ _ H org0 Hin)|].
    unfold bind at 1, lift at 1, Py.setitem in H.
    destruct (Py.hashable org); [|discriminate].
    exact (IH _ _ _ _ H org0 Hin).
Qed.

Lemma main_without_token : forall api fuel w,
  token_missing w = true -> main api fuel w = (w, Exit 1).
Proof.
  intros api fuel w H. unfold main. now rewrite H.
Qed.

Lemma main_without_orgs : forall api fuel w w1 orgs,
  token_missing w = false ->
  load_orgs api w = (w1, Ret orgs) ->
  Py.truthy orgs = false ->
  main api fuel w = (w1, Exit 1).
Proof.
  intros api fuel w w1 orgs Htok Hload Hf. unfold main. rewrite Htok.
  unfold bind. rewrite Hload, Hf. reflexivity.
Qed.


Lemma demo_well_behaved : well_behaved Demo.server 1.
Proof.
  constructor.
  - intros h. eexists. split; reflexivity.
  - intros h org page. simpl.
    destruct (page =? 1)%Z eqn:E; eexists; (split; [reflexivity|]);
      (split; [reflexivity|]); intros H.
    + apply Z.eqb_eq in E. lia.
    + reflexivity.
  - intros h org repo_name. eexists. split; reflexivity.
  - intros h url. eexists. split; reflexivity.
Qed.



(** * Further properties of the single functions *)

(** ** RequestGate: what the quota answer does to the gate *)

(** X1: when the quota query comes back with any status other than 200,
    [check_rate_limit] reads it as [(0, 0)] and [enforce_rate_limit]
    asks for a sleep of [max(0 - now, 65)] seconds.  On any clock that
    does not read before -65 this is a sleep of exactly 65 seconds, after
    which the gate returns; in general the gate sleeps that time and
    returns when [time.sleep] accepts it, and raises [OverflowError]
    without sleeping when it is longer than [time.sleep] accepts. *)
Theorem enforce_rate_limit_failed_query_sleeps :
  forall (api : remote) (w : world) (resp : response),
    respond api (trace w) GetRateLimit = Some resp ->
    status_code resp <> 200%Z ->
    let t := Z.max (0 - now api (EvRequest GetRateLimit :: trace w)) 65 in
    ((-65 <= now api (EvRequest GetRateLimit :: trace w))%Z ->
       enforce_rate_limit api w
       = (log (EvSleep 65) (log (EvRequest GetRateLimit) w), Ret tt))
    /\ ((t <= sleep_max)%Z ->
          enforce_rate_limit api w
          = (log (EvSleep t) (log (EvRequest GetRateLimit) w), Ret tt))
    /\ ((sleep_max < t)%Z ->
          enforce_rate_limit api w
          = (log (EvRequest GetRateLimit) w, Raise OverflowError)).
Proof.
  intros api w resp Hr Hs t.
  assert (E : enforce_rate_limit api w
              = if (sleep_max <? t)%Z
                then (log (EvRequest GetRateLimit) w, Raise OverflowError)
                else (log (EvSleep t) (log (EvRequest GetRateLimit) w), Ret tt)).
  { rewrite enforce_rate_limit_eq. unfold gate_action. rewrite Hr.
    unfold read_quota. apply Z.eqb_neq in Hs. rewrite Hs. subst t. simpl.
    now destruct (sleep_max <? _)%Z. }
  repeat split.
  - intros Hnow. rewrite E.
    assert (Ht : t = 65%Z) by (subst t; lia). rewrite Ht. reflexivity.
  - intros Hle. rewrite E.
    destruct (sleep_max <? t)%Z eqn:El; [apply Z.ltb_lt in El; lia | reflexivity].
  - intros Hlt. rewrite E. apply Z.ltb_lt in Hlt. now rewrite Hlt.
Qed.

Lemma enforce_rate_limit_failed_query_sleeps_witness :
  enforce_rate_limit Cases.quota_down Demo.start
  = (log (EvSleep 65) (log (EvRequest GetRateLimit) Demo.start), Ret tt).
Proof.
  refine (proj1 (enforce_rate_limit_failed_query_sleeps Cases.quota_down Demo.start
                   (mkResponse 503 None) eq_refl _) _).
  - discriminate.
  - vm_compute. discriminate.
Defined.



(** X3: a quota answer with status 200 whose body is not the expected
    object makes the gate raise after its one request: [JSONDecodeError]
    when the body is not JSON, [TypeError] when it is not an object,
    [KeyError] when the object has no [rate].  Whatever the gate raises
    leaves the three fetching functions before they issue their own
    request. *)
Theorem gate_raises_on_malformed_quota :
  forall (api : remote) (w : world) (resp : response),
    respond api (trace w) GetRateLimit = Some resp ->
    status_code resp = 200%Z ->
    (parsed resp = None ->
       enforce_rate_limit api w
       = (log (EvRequest GetRateLimit) w, Raise JSONDecodeError))
    /\ (forall v, parsed resp = Some v -> ParserSpec.is_dict v = false ->
          enforce_rate_limit api w
          = (log (EvRequest GetRateLimit) w, Raise TypeError))
    /\ (forall d, parsed resp = Some (VDict d) -> Py.dict_get "rate" d = None ->
          enforce_rate_limit api w
          = (log (EvRequest GetRateLimit) w, Raise KeyError))
    /\ (forall e,
          enforce_rate_limit api w = (log (EvRequest GetRateLimit) w, Raise e) ->
          forall org repo_name download_url fuel repos page,
            fetch_workflow_files api org repo_name w
            = (log (EvRequest GetRateLimit) w, Raise e)
            /\ parse_workflow_file api download_url w
               = (log (EvRequest GetRateLimit) w, Raise e)
            /\ fetch_all_repos_loop api (S fuel) org repos page w
               = (log (EvRequest GetRateLimit) w, Raise e)).
Proof.
  intros api w resp Hr Hs.
  assert (Hgate : forall e, read_quota resp = Raise e ->
            enforce_rate_limit api w = (log (EvRequest GetRateLimit) w, Raise e)).
  { intros e Hq. rewrite enforce_rate_limit_eq. unfold gate_action.
    now rewrite Hr, Hq. }
  repeat split.
  - intros Hp. apply Hgate. unfold read_quota. now rewrite Hs, Hp.
  - intros v Hp Hd. apply Hgate. unfold read_quota. rewrite Hs, Hp.
    destruct v; try reflexivity. discriminate.
  - intros d Hp Hrate. apply Hgate. unfold read_quota. rewrite Hs, Hp.
    simpl. now rewrite Hrate.
  - unfold fetch_workflow_files, bind. now rewrite H.
  - unfold parse_workflow_file, bind. now rewrite H.
  - cbn [fetch_all_repos_loop]. unfold bind. now rewrite H.
Qed.

Lemma gate_raises_on_malformed_quota_witness :
  enforce_rate_limit Cases.quota_empty Demo.start
  = (log (EvRequest GetRateLimit) Demo.start, Raise KeyError).
Proof.
  exact (proj1 (proj2 (proj2 (gate_raises_on_malformed_quota Cases.quota_empty
                                 Demo.start (mkResponse 200 (Some (VDict [])))
                                 eq_refl eq_refl)))
           [] eq_refl eq_refl).
Defined.

(** ** OrgRegistry: the live fetch and the cache file *)

(** X4: when [fetch_orgs] returns, it has issued one request.  After a
    200 answer the list it returns is the list it wrote to the cache
    file, so a later [load_orgs] returns the same list without a request,
    whatever server it runs against.  After any other status it returns
    the empty list and leaves the cache file as it was. *)
Theorem fetch_orgs_caches_what_it_returns :
  forall (api : remote) (w w' : world) (orgs : value),
    fetch_orgs api w = (w', Ret orgs) ->
    trace w' = EvRequest GetUserOrgs :: trace w
    /\ exists resp,
         respond api (trace w) GetUserOrgs = Some resp
         /\ (status_code resp = 200%Z ->
               org_file w' = Some (Some orgs)
               /\ (exists logins, orgs = VList logins)
               /\ forall api', load_orgs api' w' = (w', Ret orgs))
         /\ (status_code resp <> 200%Z ->
               orgs = VList [] /\ org_file w' = org_file w).
Proof.
  intros api w w' orgs H.
  split; [pose proof (fetch_orgs_trace api w) as T; now rewrite H in T|].
  unfold fetch_orgs, bind, requests_get in H.
  destruct (respond api (trace w) GetUserOrgs) as [resp|]; [|discriminate].
  exists resp. split; [reflexivity|].
  destruct (status_code resp =? 200)%Z eqn:Es.
  - split; [|intros Hne; apply Z.eqb_eq in Es; contradiction].
    intros _. unfold json in H.
    destruct (parsed resp) as [body|]; [|discriminate].
    unfold ret, lift in H.
    destruct (Py.iterate body) as [items| | |]; try discriminate.
    destruct (Py.comprehension _ items) as [logins| | |]; try discriminate.
    injection H as <- <-.
    split; [reflexivity|]. split; [now exists logins | reflexivity].
  - split; [intros Heq; apply Z.eqb_neq in Es; contradiction|].
    intros _. injection H as <- <-. split; reflexivity.
Qed.

Lemma fetch_orgs_caches_what_it_returns_witness :
  load_orgs Cases.quota_down
    (set_org_file (VList [VStr "acme"])
       (log (EvRequest GetUserOrgs) Demo.start_no_cache))
  = (set_org_file (VList [VStr "acme"])
       (log (EvRequest GetUserOrgs) Demo.start_no_cache),
     Ret (VList [VStr "acme"])).
Proof.
  destruct (fetch_orgs_caches_what_it_returns Demo.server Demo.start_no_cache
              _ _ eq_refl) as [_ [resp [Hresp [Hok _]]]].
  injection Hresp as <-.
  exact (proj2 (proj2 (Hok eq_refl)) Cases.quota_down).
Defined.

(** X5: with a credential and no usable cache file (missing, or not
    loadable), a fetch of the organizations that fails with any status
    other than 200 ends the run with [sys.exit(1)] after that single
    request; nothing is written. *)
Theorem main_exits_when_org_fetch_fails :
  forall (api : remote) (fuel : nat) (w : world) (resp : response),
    token_missing w = false ->
    org_file w = None \/ org_file w = Some None ->
    respond api (trace w) GetUserOrgs = Some resp ->
    status_code resp <> 200%Z ->
    main api fuel w = (log (EvRequest GetUserOrgs) w, Exit 1).
Proof.
  intros api fuel w resp Htok Hfile Hr Hs.
  assert (Hload : load_orgs api w
                  = (log (EvRequest GetUserOrgs) w, Ret (VList []))).
  { unfold load_orgs.
    assert (Hf : fetch_orgs api w
                 = (log (EvRequest GetUserOrgs) w, Ret (VList []))).
    { unfold fetch_orgs, bind, requests_get. rewrite Hr.
      apply Z.eqb_neq in Hs. now rewrite Hs. }
    destruct Hfile as [-> | ->]; exact Hf. }
  exact (main_without_orgs api fuel w _ _ Htok Hload eq_refl).
Qed.

Lemma main_exits_when_org_fetch_fails_witness :
  main Cases.quota_down 5 Demo.start_no_cache
  = (log (EvRequest GetUserOrgs) Demo.start_no_cache, Exit 1).
Proof.
  refine (main_exits_when_org_fetch_fails Cases.quota_down 5 Demo.start_no_cache
            (mkResponse 503 None) eq_refl (or_introl eq_refl) eq_refl _).
  discriminate.
Defined.

(** X6: a fetch that is answered with 200 and an empty list writes the
    empty list to the cache file; and with an empty list in the cache
    file every run exits with status 1 without a single request, so the
    organizations are not asked for again. *)
Theorem empty_cache_stops_every_run :
  forall (api : remote) (fuel : nat) (w : world),
    token_missing w = false ->
    (org_file w = Some (Some (VList [])) -> main api fuel w = (w, Exit 1))
    /\ (forall resp,
          org_file w = None \/ org_file w = Some None ->
          respond api (trace w) GetUserOrgs = Some resp ->
          status_code resp = 200%Z ->
          parsed resp = Some (VList []) ->
          main api fuel w
          = (set_org_file (VList []) (log (EvRequest GetUserOrgs) w), Exit 1)
          /\ forall api' fuel',
               main api' fuel'
                 (set_org_file (VList []) (log (EvRequest GetUserOrgs) w))
               = (set_org_file (VList []) (log (EvRequest GetUserOrgs) w), Exit 1)).
Proof.
  intros api fuel w Htok.
  assert (Hcached : forall api0 fuel0 w0,
            token_missing w0 = false ->
            org_file w0 = Some (Some (VList [])) ->
            main api0 fuel0 w0 = (w0, Exit 1)).
  { intros api0 fuel0 w0 Ht Hf.
    apply (main_without_orgs api0 fuel0 w0 w0 (VList [])); try assumption;
      try reflexivity.
    unfold load_orgs. now rewrite Hf. }
  split; [now apply Hcached|].
  intros resp Hfile Hr Hs Hp. split.
  - apply (main_without_orgs api fuel w _ (VList [])); try assumption;
      try reflexivity.
    unfold load_orgs.
    assert (Hf : fetch_orgs api w
                 = (set_org_file (VList []) (log (EvRequest GetUserOrgs) w),
                    Ret (VList []))).
    { unfold fetch_orgs, bind, requests_get. rewrite Hr, Hs. simpl.
      unfold json. now rewrite Hp. }
    destruct Hfile as [-> | ->]; exact Hf.
  - intros api' fuel'. apply Hcached; [exact Htok | reflexivity].
Qed.

Lemma empty_cache_stops_every_run_witness :
  main Demo.server 5
    (mkWorld (Some "secret") (Some (Some (VList []))) None [])
  = (mkWorld (Some "secret") (Some (Some (VList []))) None [], Exit 1).
Proof.
  exact (proj1 (empty_cache_stops_every_run Demo.server 5
                  (mkWorld (Some "secret") (Some (Some (VList []))) None [])
                  eq_refl) eq_refl).
Defined.

(** ** RepositoryEnumerator: pagination *)

Lemma enforce_rate_limit_passes : forall api,
  (forall h, exists resp, respond api h GetRateLimit = Some resp
                          /\ Shape.quota_ok api h resp = true) ->
  forall w, exists w1,
    enforce_rate_limit api w = (w1, Ret tt)
    /\ crawl_calls (trace w1) = crawl_calls (trace w).
Proof.
  intros api Hq w. rewrite enforce_rate_limit_eq. unfold gate_action.
  destruct (Hq (trace w)) as [resp [-> Hok]]. unfold Shape.quota_ok in Hok.
  destruct (read_quota resp) as [[remaining reset_time]| | |]; try discriminate.
  simpl. destruct (Py.scalar_eqb remaining (VInt 0)); [|eauto].
  destruct (Py.as_int reset_time) as [reset|]; [|discriminate].
  apply Z.leb_le in Hok. cbv zeta.
  destruct (sleep_max <? _)%Z eqn:E; [apply Z.ltb_lt in E; lia | eauto].
Qed.

Lemma crawl_calls_page : forall org page w,
  crawl_calls (trace (log (EvRequest (GetOrgRepos org page)) w))
  = S (crawl_calls (trace w)).
Proof. reflexivity. Qed.

Lemma fetch_all_repos_loop_pages : forall api org batches,
  (forall h, exists resp, respond api h GetRateLimit = Some resp
                          /\ Shape.quota_ok api h resp = true) ->
  (forall h i batch,
     nth_error batches i = Some batch ->
     batch <> []
     /\ respond api h (GetOrgRepos org (Z.of_nat i + 1))
        = Some (mkResponse 200 (Some (VList batch)))) ->
  (forall h, exists resp,
     respond api h (GetOrgRepos org (Z.of_nat (List.length batches) + 1)) = Some resp
     /\ Shape.last_page resp = true) ->
  forall rest pre acc fuel w,
    batches = pre ++ rest ->
    List.length rest < fuel ->
    exists w',
      fetch_all_repos_loop api fuel org acc (Z.of_nat (List.length pre) + 1) w
      = (w', Ret (acc ++ List.concat rest))
      /\ crawl_calls (trace w') = crawl_calls (trace w) + List.length rest + 1.
Proof.
  intros api org batches Hq Hpages Hlast.
  induction rest as [|b rest IH]; intros pre acc fuel w Hsplit Hfuel;
    (destruct fuel as [|f]; [simpl in Hfuel; lia|]);
    cbn [fetch_all_repos_loop]; unfold bind at 1;
    destruct (enforce_rate_limit_passes api Hq w) as [w1 [-> Hc1]];
    unfold bind at 1, requests_get.
  - rewrite app_nil_r in Hsplit. subst pre.
    destruct (Hlast (trace w1)) as [resp [-> Hl]]. unfold Shape.last_page in Hl.
    exists (log (EvRequest (GetOrgRepos org (Z.of_nat (List.length batches) + 1))) w1).
    rewrite crawl_calls_page, Hc1, app_nil_r. split; [|simpl; lia].
    destruct (status_code resp =? 200)%Z; simpl in *; [|reflexivity].
    unfold bind, json.
    destruct (parsed resp) as [[| | | |[|x xs]|]|]; try discriminate.
    reflexivity.
  - assert (Hnth : nth_error batches (List.length pre) = Some b).
    { subst batches. rewrite nth_error_app2 by lia.
      now rewrite Nat.sub_diag. }
    destruct (Hpages (trace w1) _ _ Hnth) as [Hne ->]. simpl.
    unfold bind at 1, json. simpl. unfold ret at 1.
    destruct b as [|x xs]; [contradiction|]. simpl.
    unfold bind at 1, lift at 1.
    destruct (IH (pre ++ [x :: xs]) (acc ++ x :: xs) f
                (log (EvRequest (GetOrgRepos org (Z.of_nat (List.length pre) + 1))) w1))
      as [w' [E Hc]].
    + subst batches. now rewrite <- app_assoc.
    + simpl in Hfuel. lia.
    + rewrite length_app in E. simpl in E.
      replace (Z.of_nat (List.length pre + 1) + 1)%Z
        with (Z.of_nat (List.length pre) + 1 + 1)%Z in E by lia.
      exists w'. rewrite E. split.
      * now rewrite <- app_assoc.
      * rewrite Hc, crawl_calls_page, Hc1. simpl. lia.
Qed.

(** X7: [fetch_all_repos] asks for the pages 1, 2, 3, ... in turn and
    returns the repositories of all non-empty pages, concatenated in page
    order, as soon as a page comes back empty or with a failure status;
    what it had gathered before a failing page is kept.  Reading [k]
    pages takes [k + 1] listing requests. *)
Theorem fetch_all_repos_concatenates_pages :
  forall (api : remote) (org : value) (batches : list (list value))
         (fuel : nat) (w : world),
    (forall h, exists resp, respond api h GetRateLimit = Some resp
                            /\ Shape.quota_ok api h resp = true) ->
    (forall h i batch,
       nth_error batches i = Some batch ->
       batch <> []
       /\ respond api h (GetOrgRepos org (Z.of_nat i + 1))
          = Some (mkResponse 200 (Some (VList batch)))) ->
    (forall h, exists resp,
       respond api h (GetOrgRepos org (Z.of_nat (List.length batches) + 1)) = Some resp
       /\ Shape.last_page resp = true) ->
    List.length batches < fuel ->
    exists w',
      fetch_all_repos api fuel org w = (w', Ret (List.concat batches))
      /\ crawl_calls (trace w') = crawl_calls (trace w) + List.length batches + 1.
Proof.
  intros api org batches fuel w Hq Hpages Hlast Hfuel.
  exact (fetch_all_repos_loop_pages api org batches Hq Hpages Hlast
           batches [] [] fuel w eq_refl Hfuel).
Qed.

Lemma fetch_all_repos_concatenates_pages_witness :
  exists w',
    fetch_all_repos Demo.server 5 (VStr "acme") Demo.start
    = (w', Ret (List.concat [[VDict [(VStr "name", VStr "api")]]]))
    /\ crawl_calls (trace w') = crawl_calls (trace Demo.start) + 1 + 1.
Proof.
  refine (fetch_all_repos_concatenates_pages Demo.server (VStr "acme")
            [[VDict [(VStr "name", VStr "api")]]] 5 Demo.start _ _ _ _).
  - intros h. eexists. split; reflexivity.
  - intros h i batch H. destruct i as [|[|i]]; simpl in H; try discriminate.
    injection H as <-. split; [discriminate | reflexivity].
  - intros h. eexists. split; reflexivity.
  - simpl. lia.
Defined.

Lemma fetch_all_repos_loop_endless : forall api org,
  (forall h, exists resp, respond api h GetRateLimit = Some resp
                          /\ Shape.quota_ok api h resp = true) ->
  (forall h page, exists x xs,
     respond api h (GetOrgRepos org page)
     = Some (mkResponse 200 (Some (VList (x :: xs))))) ->
  forall fuel repos page w,
    exists w',
      fetch_all_repos_loop api fuel org repos page w = (w', OutOfFuel)
      /\ crawl_calls (trace w') = crawl_calls (trace w) + fuel.
Proof.
  intros api org Hq Hpages.
  induction fuel as [|f IH]; intros repos page w.
  - exists w. split; [reflexivity | lia].
  - cbn [fetch_all_repos_loop]. unfold bind at 1.
    destruct (enforce_rate_limit_passes api Hq w) as [w1 [-> Hc1]].
    unfold bind at 1, requests_get.
    destruct (Hpages (trace w1) page) as [x [xs ->]]. simpl.
    unfold bind, json, ret, lift. simpl.
    destruct (IH (repos ++ x :: xs) (page + 1)%Z
                (log (EvRequest (GetOrgRepos org page)) w1)) as [w' [-> Hc]].
    exists w'. split; [reflexivity|].
    rewrite Hc, crawl_calls_page, Hc1. lia.
Qed.

(** X8: the pagination has no page limit of its own.  Against a server
    that answers every page with a non-empty list, [fetch_all_repos]
    never returns: after any number of pages it is still asking for the
    next one. *)
Theorem fetch_all_repos_has_no_page_limit :
  forall (api : remote) (org : value),
    (forall h, exists resp, respond api h GetRateLimit = Some resp
                            /\ Shape.quota_ok api h resp = true) ->
    (forall h page, exists x xs,
       respond api h (GetOrgRepos org page)
       = Some (mkResponse 200 (Some (VList (x :: xs))))) ->
    forall (fuel : nat) (w : world),
      snd (fetch_all_repos api fuel org w) = OutOfFuel
      /\ crawl_calls (trace (fst (fetch_all_repos api fuel org w)))
         = crawl_calls (trace w) + fuel.
Proof.
  intros api org Hq Hpages fuel w. unfold fetch_all_repos.
  destruct (fetch_all_repos_loop_endless api org Hq Hpages fuel [] 1%Z w)
    as [w' [-> Hc]].
  split; [reflexivity | exact Hc].
Qed.

Lemma fetch_all_repos_has_no_page_limit_witness :
  snd (fetch_all_repos Cases2.endless 40 (VStr "acme") Demo.start) = OutOfFuel.
Proof.
  refine (proj1 (fetch_all_repos_has_no_page_limit Cases2.endless (VStr "acme")
                   _ _ 40 Demo.start)).
  - intros h. eexists. split; reflexivity.
  - intros h page. do 2 eexists. reflexivity.
Defined.

(** ** WorkflowLocator: the directory listing *)

Lemma items_loop_ok_prefix : forall pre rest files,
  forallb Shape.item_ok pre = true ->
  items_loop (pre ++ rest) files
  = items_loop rest
      (files ++ map LocatorSpec.to_workflow (filter LocatorSpec.is_file pre)).
Proof.
  induction pre as [|item pre IH]; intros rest files H; simpl.
  - now rewrite app_nil_r.
  - simpl in H. apply andb_true_iff in H as [Hi Hpre].
    destruct item; simpl in Hi; try discriminate.
    unfold LocatorSpec.is_file. simpl.
    destruct (Py.dict_get "type" kvs) as [ty|] eqn:Et; [|discriminate]. simpl.
    destruct (Py.scalar_eqb ty (VStr "file")); [|now apply IH].
    unfold Py.contains in Hi.
    unfold LocatorSpec.to_workflow at 1, LocatorSpec.field. simpl.
    destruct (Py.dict_get "name" kvs); [|discriminate].
    destruct (Py.dict_get "path" kvs); [|discriminate].
    destruct (Py.dict_get "download_url" kvs); [|discriminate].
    simpl. rewrite IH by assumption. now rewrite <- app_assoc.
Qed.

(** X9: from a 200 answer that lists directory items,
    [fetch_workflow_files] keeps the items whose type is [file], in
    listing order, each with its name, path and download reference;
    directories, symlinks and submodules are left out. *)
Theorem fetch_workflow_files_keeps_files_in_order :
  forall (api : remote) (org repo_name : value) (w w1 : world) (items : list value),
    enforce_rate_limit api w = (w1, Ret tt) ->
    respond api (trace w1) (GetWorkflows org repo_name)
      = Some (mkResponse 200 (Some (VList items))) ->
    forallb Shape.item_ok items = true ->
    fetch_workflow_files api org repo_name w
    = (log (EvRequest (GetWorkflows org repo_name)) w1,
       Ret (map LocatorSpec.to_workflow (filter LocatorSpec.is_file items))).
Proof.
  intros api org repo_name w w1 items Hg Hr Hok.
  unfold fetch_workflow_files, bind. rewrite Hg. unfold requests_get.
  rewrite Hr. simpl. unfold lift.
  pose proof (items_loop_ok_prefix items [] [] Hok) as H.
  rewrite app_nil_r in H. rewrite H. reflexivity.
Qed.

Lemma fetch_workflow_files_keeps_files_in_order_witness :
  fetch_workflow_files Demo.server (VStr "acme") (VStr "api") Demo.start
  = (log (EvRequest (GetWorkflows (VStr "acme") (VStr "api")))
       (log (EvRequest GetRateLimit) Demo.start),
     Ret [mkWorkflow (VStr "ci.yml") (VStr ".github/workflows/ci.yml")
            (VStr "https://raw.example/acme/api/ci.yml")]).
Proof.
  exact (fetch_workflow_files_keeps_files_in_order Demo.server (VStr "acme")
           (VStr "api") Demo.start (log (EvRequest GetRateLimit) Demo.start)
           _ eq_refl eq_refl eq_refl).
Defined.

(** X10: what [fetch_workflow_files] makes of the answer to its listing
    request, case by case.  Any status other than 200 (a 404, the 403 of
    a throttled call, a 500) and any JSON body that is not a list (the
    path is a single file) give the empty list, and the caller cannot
    tell them apart; a 200 whose body is not JSON raises
    [JSONDecodeError] from [response.json()]; a 200 with a JSON list is
    read item by item. *)
Theorem fetch_workflow_files_empty_on_any_failure :
  forall (api : remote) (org repo_name : value) (w w1 : world) (resp : response),
    enforce_rate_limit api w = (w1, Ret tt) ->
    respond api (trace w1) (GetWorkflows org repo_name) = Some resp ->
    (status_code resp <> 200%Z
     \/ (exists v, parsed resp = Some v /\ LocatorSpec.is_list v = false) ->
     fetch_workflow_files api org repo_name w
     = (log (EvRequest (GetWorkflows org repo_name)) w1, Ret []))
    /\ (status_code resp = 200%Z ->
        parsed resp = None ->
        fetch_workflow_files api org repo_name w
        = (log (EvRequest (GetWorkflows org repo_name)) w1, Raise JSONDecodeError))
    /\ (forall items,
          status_code resp = 200%Z ->
          parsed resp = Some (VList items) ->
          fetch_workflow_files api org repo_name w
          = (log (EvRequest (GetWorkflows org repo_name)) w1, items_loop items [])).
Proof.
  intros api org repo_name w w1 resp Hg Hr.
  unfold fetch_workflow_files, bind. rewrite Hg. unfold requests_get. rewrite Hr.
  repeat split.
  - intros Hcase. destruct (status_code resp =? 404)%Z; [reflexivity|].
    destruct Hcase as [Hs | [v [Hp Hl]]].
    + apply Z.eqb_neq in Hs. now rewrite Hs.
    + destruct (status_code resp =? 200)%Z; [|reflexivity]. simpl.
      unfold json. rewrite Hp. unfold ret.
      destruct v; try reflexivity. discriminate.
  - intros Hs Hp. rewrite Hs. simpl. unfold json. now rewrite Hp.
  - intros items Hs Hp. rewrite Hs. simpl. unfold json. now rewrite Hp.
Qed.

Lemma fetch_workflow_files_empty_on_any_failure_witness :
  fetch_workflow_files Demo.failing_server (VStr "acme") (VStr "api") Demo.start
  = (log (EvRequest (GetWorkflows (VStr "acme") (VStr "api")))
       (log (EvRequest GetRateLimit) Demo.start), Ret [])
  /\ fetch_workflow_files Cases.listing_not_json (VStr "acme") (VStr "api") Demo.start
     = (log (EvRequest (GetWorkflows (VStr "acme") (VStr "api")))
          (log (EvRequest GetRateLimit) Demo.start), Raise JSONDecodeError).
Proof.
  split.
  - refine (proj1 (fetch_workflow_files_empty_on_any_failure Demo.failing_server
                     (VStr "acme") (VStr "api") Demo.start
                     (log (EvRequest GetRateLimit) Demo.start) (mkResponse 404 None)
                     eq_refl eq_refl) (or_introl _)).
    discriminate.
  - exact (proj1 (proj2
             (fetch_workflow_files_empty_on_any_failure Cases.listing_not_json
                (VStr "acme") (VStr "api") Demo.start
                (log (EvRequest GetRateLimit) Demo.start) (mkResponse 200 None)
                eq_refl eq_refl)) eq_refl eq_refl).
Defined.

(** X11: the listing loop reads [item["type"]] and, for a file, the three
    other fields without checking that they are there.  After any number
    of well-formed items, an item that is not an object raises
    [TypeError], an object without [type] raises [KeyError], and a file
    without [download_url] raises [KeyError]; the files found before it
    are not returned. *)
Theorem items_loop_raises_on_malformed_item :
  forall (pre post : list value) (files : list workflow),
    forallb Shape.item_ok pre = true ->
    (forall item,
       ParserSpec.is_dict item = false ->
       items_loop (pre ++ item :: post) files = Raise TypeError)
    /\ (forall d,
          Py.dict_get "type" d = None ->
          items_loop (pre ++ VDict d :: post) files = Raise KeyError)
    /\ (forall d n p,
          Py.dict_get "type" d = Some (VStr "file") ->
          Py.dict_get "name" d = Some n ->
          Py.dict_get "path" d = Some p ->
          Py.dict_get "download_url" d = None ->
          items_loop (pre ++ VDict d :: post) files = Raise KeyError).
Proof.
  intros pre post files Hpre. repeat split.
  - intros item Hd. rewrite items_loop_ok_prefix by assumption.
    destruct item; try reflexivity. discriminate.
  - intros d Ht. rewrite items_loop_ok_prefix by assumption.
    simpl. now rewrite Ht.
  - intros d n p Ht Hn Hp Hu. rewrite items_loop_ok_prefix by assumption.
    simpl. rewrite Ht. simpl. rewrite Hn. simpl. rewrite Hp. simpl.
    now rewrite Hu.
Qed.

Lemma items_loop_raises_on_malformed_item_witness :
  items_loop
    ([VDict [(VStr "type", VStr "dir")]] ++ VDict [(VStr "name", VStr "x")] :: [])
    []
  = Raise KeyError.
Proof.
  exact (proj1 (proj2 (items_loop_raises_on_malformed_item
                         [VDict [(VStr "type", VStr "dir")]] [] [] eq_refl))
           [(VStr "name", VStr "x")] eq_refl).
Defined.

(** ** WorkflowParser: which documents it accepts *)

Lemma jobs_loop_raises : forall jobs acc,
  forallb (fun job => ParserSpec.is_dict (snd job)) jobs = false ->
  jobs_loop jobs acc = Raise AttributeError.
Proof.
  induction jobs as [|[job_name job_data] rest IH]; intros acc H; simpl in *;
    [discriminate|].
  destruct job_data; try reflexivity. simpl in H. simpl.
  destruct (Py.dict_get "steps" kvs) as [steps|]; simpl.
  - destruct steps; now apply IH.
  - now apply IH.
Qed.

(** X12: [extract_uses] (the part of [parse_workflow_file] after the
    YAML is loaded) raises in exactly one case, a job whose value is not
    a mapping, and then with [AttributeError].  A document that is not a
    mapping, has no [jobs], or whose [jobs] is not a mapping gives the
    empty list; when every job is a mapping the result is the [uses]
    values in job-then-step order, a job without a [steps] list
    contributing nothing. *)
Theorem extract_uses_raises_exactly_on_bad_job : forall doc : value,
  (extract_uses doc = Raise AttributeError
   <-> exists wd jobs,
         doc = VDict wd
         /\ Py.dict_get "jobs" wd = Some (VDict jobs)
         /\ forallb (fun job => ParserSpec.is_dict (snd job)) jobs = false)
  /\ (extract_uses doc = Raise AttributeError
      \/ exists refs, extract_uses doc = Ret refs)
  /\ (ParserSpec.is_dict doc = false -> extract_uses doc = Ret [])
  /\ (forall wd, doc = VDict wd -> Py.dict_get "jobs" wd = None ->
        extract_uses doc = Ret [])
  /\ (forall wd v, doc = VDict wd -> Py.dict_get "jobs" wd = Some v ->
        ParserSpec.is_dict v = false -> extract_uses doc = Ret [])
  /\ (forall wd jobs, doc = VDict wd -> Py.dict_get "jobs" wd = Some (VDict jobs) ->
        forallb (fun job => ParserSpec.is_dict (snd job)) jobs = true ->
        extract_uses doc
        = Ret (flat_map ParserSpec.uses_of_step (ParserSpec.all_steps jobs))).
Proof.
  intros doc.
  assert (Hgood : forall wd jobs, doc = VDict wd ->
            Py.dict_get "jobs" wd = Some (VDict jobs) ->
            forallb (fun job => ParserSpec.is_dict (snd job)) jobs = true ->
            extract_uses doc
            = Ret (flat_map ParserSpec.uses_of_step (ParserSpec.all_steps jobs))).
  { intros wd jobs -> Hj Hd. simpl. rewrite Hj. now rewrite jobs_loop_spec. }
  assert (Hbad : forall wd jobs, doc = VDict wd ->
            Py.dict_get "jobs" wd = Some (VDict jobs) ->
            forallb (fun job => ParserSpec.is_dict (snd job)) jobs = false ->
            extract_uses doc = Raise AttributeError).
  { intros wd jobs -> Hj Hd. simpl. rewrite Hj. now apply jobs_loop_raises. }
  assert (Hnodict : ParserSpec.is_dict doc = false -> extract_uses doc = Ret []).
  { destruct doc; try reflexivity. discriminate. }
  assert (Hnojobs : forall wd, doc = VDict wd -> Py.dict_get "jobs" wd = None ->
            extract_uses doc = Ret []).
  { intros wd -> Hj. simpl. now rewrite Hj. }
  assert (Hjobs : forall wd v, doc = VDict wd -> Py.dict_get "jobs" wd = Some v ->
            ParserSpec.is_dict v = false -> extract_uses doc = Ret []).
  { intros wd v -> Hj Hv. simpl. rewrite Hj. destruct v; try reflexivity.
    discriminate. }
  assert (Hcases : (exists wd jobs, doc = VDict wd
                      /\ Py.dict_get "jobs" wd = Some (VDict jobs)
                      /\ forallb (fun job => ParserSpec.is_dict (snd job)) jobs = false)
                   \/ exists refs, extract_uses doc = Ret refs).
  { destruct (ParserSpec.is_dict doc) eqn:Ed; [|right; eauto].
    destruct doc as [| | | | |wd]; try discriminate.
    destruct (Py.dict_get "jobs" wd) as [v|] eqn:Ej; [|right; eauto].
    destruct (ParserSpec.is_dict v) eqn:Ev; [|right; eauto].
    destruct v as [| | | | |jobs]; try discriminate.
    destruct (forallb (fun job => ParserSpec.is_dict (snd job)) jobs) eqn:Ef.
    - right. eauto.
    - left. now exists wd, jobs. }
  split; [split|].
  - intros Hr. destruct Hcases as [H | [refs H]]; [exact H | congruence].
  - intros [wd [jobs [Hd [Hj Hf]]]]. now apply (Hbad wd jobs).
  - split.
    + destruct Hcases as [[wd [jobs [Hd [Hj Hf]]]] | H]; [left | right; exact H].
      now apply (Hbad wd jobs).
    + repeat split; assumption.
Qed.

(** ** InventoryAggregator: the entries of one repository *)

Lemma refs_loop_strings : forall own wf uses acc,
  forallb is_str uses = true ->
  refs_loop own wf uses acc = Ret (acc ++ map (entry_for own wf) uses).
Proof.
  intros own wf uses; induction uses as [|ref rest IH]; intros acc H; simpl.
  - now rewrite app_nil_r.
  - simpl in H. apply andb_true_iff in H as [Hs Hrest].
    destruct ref; try discriminate. simpl.
    rewrite IH by assumption. now rewrite <- app_assoc.
Qed.

Lemma refs_loop_non_string : forall own wf uses acc,
  forallb is_str uses = false ->
  refs_loop own wf uses acc = Raise AttributeError.
Proof.
  intros own wf uses; induction uses as [|ref rest IH]; intros acc H; simpl in *;
    [discriminate|].
  destruct ref; try reflexivity. simpl in *. now apply IH.
Qed.



(** ** ActionClassifier: what the verdict depends on *)

Lemma rstrip_cons_nonspace : forall c s,
  PyStr.isspace c = false -> PyStr.rstrip (String c s) = String c (PyStr.rstrip s).
Proof.
  intros c s H. simpl. rewrite H. destruct (PyStr.rstrip s); reflexivity.
Qed.

(** X14: only a first segment that is exactly [docker] is exempt.  A
    container reference [docker://image] has the first segment [docker:]
    and is flagged third-party (unless [docker:] is listed as an own
    organization); a local action [./path] has the first segment [.] and
    is flagged third-party likewise. *)
Theorem is_third_party_flags_container_and_local_refs :
  forall (rest : string) (own : list string),
    is_third_party ("docker://" ++ rest) own = negb (str_in "docker:" own)
    /\ is_third_party ("./" ++ rest) own = negb (str_in "." own).
Proof.
  intros rest own. split; rewrite is_third_party_unfold; cbv zeta;
    unfold PyStr.strip; simpl PyStr.lower; simpl PyStr.lstrip;
    repeat (rewrite rstrip_cons_nonspace by reflexivity); simpl;
    now rewrite andb_true_r.
Qed.

Lemma lower_char_idem : forall c,
  PyStr.lower_char (PyStr.lower_char c) = PyStr.lower_char c.
Proof. intros [[] [] [] [] [] [] [] []]; reflexivity. Qed.

Lemma isspace_lower_char : forall c,
  PyStr.isspace (PyStr.lower_char c) = PyStr.isspace c.
Proof. intros [[] [] [] [] [] [] [] []]; reflexivity. Qed.

Lemma lower_idem : forall s, PyStr.lower (PyStr.lower s) = PyStr.lower s.
Proof.
  induction s as [|c s IH]; simpl; [reflexivity|].
  now rewrite lower_char_idem, IH.
Qed.

Lemma lower_lstrip : forall s,
  PyStr.lower (PyStr.lstrip s) = PyStr.lstrip (PyStr.lower s).
Proof.
  induction s as [|c s IH]; simpl; [reflexivity|].
  rewrite isspace_lower_char. destruct (PyStr.isspace c); [exact IH | reflexivity].
Qed.

Lemma lower_rstrip : forall s,
  PyStr.lower (PyStr.rstrip s) = PyStr.rstrip (PyStr.lower s).
Proof.
  induction s as [|c s IH]; simpl; [reflexivity|].
  rewrite <- IH, isspace_lower_char.
  destruct (PyStr.rstrip s); simpl; [destruct (PyStr.isspace c)|]; reflexivity.
Qed.

Lemma lstrip_idem : forall s, PyStr.lstrip (PyStr.lstrip s) = PyStr.lstrip s.
Proof.
  induction s as [|c s IH]; simpl; [reflexivity|].
  destruct (PyStr.isspace c) eqn:E; [exact IH|]. simpl. now rewrite E.
Qed.

Lemma rstrip_idem : forall s, PyStr.rstrip (PyStr.rstrip s) = PyStr.rstrip s.
Proof.
  induction s as [|c s IH]; simpl; [reflexivity|].
  destruct (PyStr.rstrip s) as [|c' r] eqn:E.
  - destruct (PyStr.isspace c) eqn:Ec; simpl; [reflexivity | now rewrite Ec].
  - change (PyStr.rstrip (String c (String c' r)) = String c (String c' r)).
    simpl in IH |- *. destruct (match PyStr.rstrip r with
                                | "" => if PyStr.isspace c' then "" else String c' ""
                                | String a s0 => String c' (String a s0)
                                end); [discriminate|].
    now rewrite IH.
Qed.

(** What [rstrip] returns starts with the first character of its
    argument, when that is not a space. *)
Lemma lstrip_rstrip : forall s,
  PyStr.lstrip (PyStr.rstrip (PyStr.lstrip s)) = PyStr.rstrip (PyStr.lstrip s).
Proof.
  induction s as [|c s IH]; simpl; [reflexivity|].
  destruct (PyStr.isspace c) eqn:E; [exact IH|].
  rewrite rstrip_cons_nonspace by assumption. simpl. now rewrite E.
Qed.

Lemma strip_idem : forall s, PyStr.strip (PyStr.strip s) = PyStr.strip s.
Proof.
  intros s. unfold PyStr.strip. now rewrite lstrip_rstrip, rstrip_idem.
Qed.

Lemma lower_strip : forall s,
  PyStr.lower (PyStr.strip s) = PyStr.strip (PyStr.lower s).
Proof.
  intros s. unfold PyStr.strip. now rewrite lower_rstrip, lower_lstrip.
Qed.

(** X15: the verdict does not change when the reference is written in
    another letter case or with white space around it: lowercasing or
    stripping the reference before the call gives the same answer. *)
Theorem is_third_party_ignores_case_and_padding :
  forall (ref : string) (own : list string),
    is_third_party (PyStr.lower ref) own = is_third_party ref own
    /\ is_third_party (PyStr.strip ref) own = is_third_party ref own
    /\ is_third_party (PyStr.strip (PyStr.lower ref)) own = is_third_party ref own.
Proof.
  intros ref own. unfold is_third_party. repeat split.
  - now rewrite lower_idem.
  - now rewrite lower_strip, strip_idem.
  - now rewrite lower_strip, lower_idem, strip_idem.
Qed.

(** ** The run as a whole: the cache file and the report file *)

(** What holds after start-up and is kept by every event other than a
    request for the organizations, and by the write of the report, holds
    at the end of [main]. *)
Lemma main_keeps_after_load : forall api (I : world -> Prop),
  (forall e w, is_org_fetch e = false -> I w -> I (log e w)) ->
  (forall r w, I w -> I (set_results_file r w)) ->
  forall fuel w,
    token_missing w = false ->
    I (fst (load_orgs api w)) ->
    I (fst (main api fuel w)).
Proof.
  intros api I Hlog Hwrite fuel w Htok Hload.
  assert (Hgated : forall A (r : request) (k : response -> M A),
            crawl_call r = true ->
            (forall resp, keeps I (k resp)) ->
            keeps I (enforce_rate_limit api ;; resp <- requests_get api r ;; k resp)).
  { intros A r k Hr Hk. apply keeps_bind.
    - intros w0 H0. rewrite enforce_rate_limit_eq.
      destruct (gate_action api (trace w0)) as [[t|]| | |]; simpl;
        repeat (apply Hlog; [reflexivity|]); exact H0.
    - intros _. apply keeps_bind; [|exact Hk].
      intros w0 H0. unfold requests_get.
      destruct (respond api (trace w0) r); simpl;
        (apply Hlog; [destruct r; try discriminate; reflexivity | exact H0]). }
  unfold main. rewrite Htok. unfold bind at 1.
  destruct (load_orgs api w) as [w1 [orgs| | |]]; simpl in Hload; try exact Hload.
  destruct (negb (Py.truthy orgs)); [exact Hload|].
  unfold bind at 1, lift at 1.
  destruct (Py.iterate orgs) as [org_list| | |]; try exact Hload.
  unfold bind at 1, lift at 1.
  destruct (Py.comprehension Py.lower org_list) as [own| | |]; try exact Hload.
  unfold bind.
  pose proof (orgs_loop_keeps api I Hgated fuel own org_list [] w1 Hload) as Hloop.
  destruct (orgs_loop api fuel own org_list [] w1) as [w' [results| | |]];
    simpl in *; try exact Hloop.
  now apply Hwrite.
Qed.

Lemma org_fetch_first_cons : forall e tr,
  is_org_fetch e = false -> org_fetch_first tr -> org_fetch_first (e :: tr).
Proof.
  intros e tr He H newer older Heq.
  destruct newer as [|e' newer]; simpl in Heq; injection Heq as -> Htr.
  - discriminate.
  - exact (H newer older Htr).
Qed.

Lemma org_fetches_cons : forall e tr,
  is_org_fetch e = false -> org_fetches (e :: tr) = org_fetches tr.
Proof.
  intros e tr He. unfold org_fetches. simpl. now rewrite He.
Qed.

(** X16: a run asks for the organizations at most once, and then as its
    very first remote call; when the cache file loads it never asks, and
    the cache file is the same at the end of the run as at its start.
    The crawl itself never fetches the organizations again. *)
Theorem organizations_fetched_at_most_once :
  forall (api : remote) (fuel : nat) (tok : option string)
         (cache : option (option value)) (res : option report),
    org_fetches (trace (fst (main api fuel (mkWorld tok cache res [])))) <= 1
    /\ org_fetch_first (trace (fst (main api fuel (mkWorld tok cache res []))))
    /\ (forall v, cache = Some (Some v) ->
          org_fetches (trace (fst (main api fuel (mkWorld tok cache res [])))) = 0
          /\ org_file (fst (main api fuel (mkWorld tok cache res []))) = cache).
Proof.
  intros api fuel tok cache res.
  set (w := mkWorld tok cache res []).
  destruct (token_missing w) eqn:Htok.
  { rewrite (main_without_token api fuel w Htok). simpl.
    repeat split; try reflexivity.
    - unfold org_fetches. simpl. lia.
    - intros newer older H. destruct newer; discriminate. }
  assert (Hstable : forall n c,
            (org_fetches (trace (fst (load_orgs api w))) = n
             /\ org_fetch_first (trace (fst (load_orgs api w)))
             /\ org_file (fst (load_orgs api w)) = c) ->
            org_fetches (trace (fst (main api fuel w))) = n
            /\ org_fetch_first (trace (fst (main api fuel w)))
            /\ org_file (fst (main api fuel w)) = c).
  { intros n c Hl.
    apply (main_keeps_after_load api
             (fun w0 => org_fetches (trace w0) = n
                        /\ org_fetch_first (trace w0) /\ org_file w0 = c));
      try assumption.
    - intros e w0 He [H1 [H2 H3]]. simpl.
      rewrite org_fetches_cons by assumption.
      repeat split; try assumption. now apply org_fetch_first_cons.
    - intros r w0 H0. exact H0. }
  destruct cache as [[v|]|].
  - destruct (Hstable 0 (Some (Some v))) as [H1 [H2 H3]].
    { simpl. repeat split. intros newer older H. destruct newer; discriminate. }
    repeat split; try assumption; try lia.
  - destruct (Hstable 1 (org_file (fst (fetch_orgs api w)))) as [H1 [H2 _]].
    { change (load_orgs api w) with (fetch_orgs api w).
      rewrite fetch_orgs_trace. repeat split.
      intros newer older H. destruct newer as [|e [|e' newer]]; simpl in H;
        try discriminate. now injection H as <-. }
    repeat split; try assumption; try lia; discriminate.
  - destruct (Hstable 1 (org_file (fst (fetch_orgs api w)))) as [H1 [H2 _]].
    { change (load_orgs api w) with (fetch_orgs api w).
      rewrite fetch_orgs_trace. repeat split.
      intros newer older H. destruct newer as [|e [|e' newer]]; simpl in H;
        try discriminate. now injection H as <-. }
    repeat split; try assumption; try lia; discriminate.
Qed.

Lemma fetch_orgs_keeps_results_file : forall api c,
  keeps (fun w => results_file w = c) (fetch_orgs api).
Proof.
  intros api c w H. unfold fetch_orgs, bind, requests_get.
  destruct (respond api (trace w) GetUserOrgs) as [resp|]; [|exact H].
  destruct (status_code resp =? 200)%Z; [|exact H].
  unfold json. destruct (parsed resp) as [body|]; [|exact H].
  unfold ret, lift.
  destruct (Py.iterate body) as [items| | |]; try exact H.
  destruct (Py.comprehension _ items); exact H.
Qed.

Lemma main_report_cases : forall api fuel w,
  exists w' o,
    main api fuel w = (w', o)
    /\ ((o = Ret tt /\ exists results, results_file w' = Some results)
        \/ (o <> Ret tt /\ results_file w' = results_file w)).
Proof.
  intros api fuel w. unfold main.
  destruct (token_missing w);
    [do 2 eexists; split; [reflexivity | right; split; [discriminate | reflexivity]]|].
  unfold bind at 1.
  pose proof (load_orgs_keeps api (fun w0 => results_file w0 = results_file w)
                (fetch_orgs_keeps_results_file api (results_file w)) w eq_refl)
    as Hload.
  destruct (load_orgs api w) as [w1 [orgs| | |]]; simpl in Hload;
    try (do 2 eexists; split;
         [reflexivity | right; split; [discriminate | exact Hload]]).
  destruct (negb (Py.truthy orgs));
    [do 2 eexists; split;
     [reflexivity | right; split; [discriminate | exact Hload]]|].
  unfold bind at 1, lift at 1.
  destruct (Py.iterate orgs) as [org_list| | |];
    try (do 2 eexists; split;
         [reflexivity | right; split; [discriminate | exact Hload]]).
  unfold bind at 1, lift at 1.
  destruct (Py.comprehension Py.lower org_list) as [own| | |];
    try (do 2 eexists; split;
         [reflexivity | right; split; [discriminate | exact Hload]]).
  unfold bind.
  pose proof (orgs_loop_keeps api (fun w0 => results_file w0 = results_file w)
                (log_keeps_gated_call api
                   (fun w0 => results_file w0 = results_file w) (fun e w0 H => H))
                fuel own org_list [] w1 Hload) as Hloop.
  destruct (orgs_loop api fuel own org_list [] w1) as [w' [results| | |]];
    simpl in Hloop;
    try (do 2 eexists; split;
         [reflexivity | right; split; [discriminate | exact Hloop]]).
  do 2 eexists. split; [reflexivity|]. left. split; [reflexivity|].
  now exists results.
Qed.

(** X17: the report file is written in one piece at the very end.  A run
    that returns normally has written it; a run that ends in
    [sys.exit], in an uncaught exception, or that is still crawling, has
    left the report file exactly as it found it, whatever it had
    gathered. *)
Theorem report_written_only_at_the_end :
  forall (api : remote) (fuel : nat) (w : world),
    (snd (main api fuel w) = Ret tt ->
       exists results, results_file (fst (main api fuel w)) = Some results)
    /\ (snd (main api fuel w) <> Ret tt ->
          results_file (fst (main api fuel w)) = results_file w).
Proof.
  intros api fuel w.
  destruct (main_report_cases api fuel w) as [w' [o [-> [[-> Hr] | [Hne Hr]]]]];
    simpl; split; intros H; try assumption; try discriminate.
  - now elim H.
  - contradiction.
Qed.

(** X18: a download that fails with any status other than 200, and a
    body that [yaml.safe_load] rejects, both give the empty list: to the
    caller such a file is the same as a workflow without any [uses]. *)
Theorem parse_workflow_file_empty_on_failure :
  forall (api : remote) (download_url : value) (w w1 : world) (resp : response),
    enforce_rate_limit api w = (w1, Ret tt) ->
    respond api (trace w1) (GetRaw download_url) = Some resp ->
    status_code resp <> 200%Z \/ parsed resp = None ->
    parse_workflow_file api download_url w
    = (log (EvRequest (GetRaw download_url)) w1, Ret []).
Proof.
  intros api url w w1 resp Hg Hr Hcase.
  unfold parse_workflow_file, bind. rewrite Hg. unfold requests_get. rewrite Hr.
  destruct Hcase as [Hs | Hp].
  - apply Z.eqb_neq in Hs. now rewrite Hs.
  - destruct (status_code resp =? 200)%Z; [|reflexivity]. simpl. now rewrite Hp.
Qed.

Lemma parse_workflow_file_empty_on_failure_witness :
  parse_workflow_file (Demo.server_with None) (VStr "u") Demo.start
  = (log (EvRequest (GetRaw (VStr "u"))) (log (EvRequest GetRateLimit) Demo.start),
     Ret []).
Proof.
  exact (parse_workflow_file_empty_on_failure (Demo.server_with None) (VStr "u")
           Demo.start (log (EvRequest GetRateLimit) Demo.start)
           (mkResponse 200 None) eq_refl eq_refl (or_intror eq_refl)).
Defined.

(** ** The entries of the report *)

Lemma entry_for_ok : forall own wf uses,
  forallb is_str uses = true ->
  Forall (entry_ok own) (map (entry_for own wf) uses).
Proof.
  intros own wf uses; induction uses as [|ref rest IH]; simpl; intros H;
    [constructor|].
  apply andb_true_iff in H as [Hs Hrest].
  constructor; [|now apply IH].
  destruct ref; try discriminate. now exists s.
Qed.

Lemma files_loop_entries : forall api own files inventory,
  Forall (entry_ok own) inventory ->
  yields (Forall (entry_ok own)) (files_loop api own files inventory).
Proof.
  intros api own files; induction files as [|wf rest IH]; intros inventory H;
    cbn [files_loop].
  - now apply yields_ret.
  - apply yields_bind; intros uses_list _ _ _.
    apply yields_bind; intros inv w w1 E. apply lift_Ret in E.
    apply IH.
    destruct (forallb is_str uses_list) eqn:Es.
    + rewrite refs_loop_strings in E by assumption. injection E as <-.
      apply Forall_app. split; [exact H | now apply entry_for_ok].
    + rewrite refs_loop_non_string in E by assumption. discriminate.
Qed.

Lemma repos_loop_entries : forall api own org repos org_results,
  Forall (fun p => Forall (entry_ok own) (snd p)) org_results ->
  yields (Forall (fun p => Forall (entry_ok own) (snd p)))
    (repos_loop api own org repos org_results).
Proof.
  intros api own org repos; induction repos as [|repo rest IH];
    intros org_results H; simpl.
  - now apply yields_ret.
  - apply yields_bind; intros repo_name _ _ _.
    apply yields_bind; intros files _ _ _.
    destruct files as [|wf files]; [now apply IH|].
    apply yields_bind; intros inventory w w1 E.
    apply files_loop_entries in E; [|constructor].
    destruct inventory as [|e inventory]; [now apply IH|].
    apply yields_bind; intros org_results' w2 w3 E'.
    apply lift_Ret, setitem_Ret in E' as [_ ->].
    apply IH. now apply (assoc_set_Forall _ (Forall (entry_ok own))).
Qed.

Lemma orgs_loop_entries : forall api fuel own orgs results,
  Forall (fun p => Forall (fun q => Forall (entry_ok own) (snd q)) (snd p)) results ->
  yields (Forall (fun p => Forall (fun q => Forall (entry_ok own) (snd q)) (snd p)))
    (orgs_loop api fuel own orgs results).
Proof.
  intros api fuel own orgs; induction orgs as [|org rest IH];
    intros results H; simpl.
  - now apply yields_ret.
  - apply yields_bind; intros repos _ _ _.
    destruct repos as [|repo repos]; [now apply IH|].
    apply yields_bind; intros org_results w w1 E.
    apply repos_loop_entries in E; [|constructor].
    destruct org_results as [|p org_results]; [now apply IH|].
    apply yields_bind; intros results' w2 w3 E'.
    apply lift_Ret, setitem_Ret in E' as [_ ->].
    apply IH.
    now apply (assoc_set_Forall _
                 (Forall (fun q => Forall (entry_ok own) (snd q)))).
Qed.

(** X19: in the report that [main] writes, every entry holds a reference
    that is a string, and its [is_third_party] flag is the verdict of
    [is_third_party] on that reference against the lowercased names of
    the loaded organizations. *)
Theorem report_flags_are_the_classifier_verdicts :
  forall (api : remote) (fuel : nat) (tok : option string)
         (cache : option (option value)) (tr : list event) (r : report),
    results_file (fst (main api fuel (mkWorld tok cache None tr))) = Some r ->
    exists orgs org_list own w1,
      load_orgs api (mkWorld tok cache None tr) = (w1, Ret orgs)
      /\ Py.iterate orgs = Ret org_list
      /\ Py.comprehension Py.lower org_list = Ret own
      /\ forall org repo e,
           In e (entries_of r org repo) ->
           exists s, uses_reference e = VStr s
                     /\ third_party e = is_third_party s own.
Proof.
  intros api fuel tok cache tr r Hr.
  destruct (main_report api fuel (mkWorld tok cache None tr) r eq_refl Hr)
    as [orgs [org_list [own [w1 [w' [Hload [Hiter [Hlower Hloop]]]]]]]].
  exists orgs, org_list, own, w1. repeat (split; [assumption|]).
  pose proof (orgs_loop_entries api fuel own org_list [] (Forall_nil _)
                w1 w' r Hloop) as Hall.
  intros org repo e Hin. unfold entries_of in Hin.
  destruct (Py.assoc_get org r) as [org_results|] eqn:Eo; [|contradiction].
  destruct (Py.assoc_get repo org_results) as [entries|] eqn:Er; [|contradiction].
  apply assoc_get_In in Eo as [k Ho]. apply assoc_get_In in Er as [k' Hk].
  rewrite Forall_forall in Hall. specialize (Hall _ Ho). simpl in Hall.
  rewrite Forall_forall in Hall. specialize (Hall _ Hk). simpl in Hall.
  rewrite Forall_forall in Hall. exact (Hall e Hin).
Qed.

Lemma report_flags_are_the_classifier_verdicts_witness :
  exists orgs org_list own w1,
    load_orgs Demo.server Demo.start = (w1, Ret orgs)
    /\ Py.iterate orgs = Ret org_list
    /\ Py.comprehension Py.lower org_list = Ret own
    /\ forall org repo e,
         In e (entries_of
                 [(VStr "acme",
                   [(VStr "api",
                     [mkEntry (VStr ".github/workflows/ci.yml")
                        (VStr "actions/checkout@v3") false;
                      mkEntry (VStr ".github/workflows/ci.yml")
                        (VStr "randomuser/cool-action@v1") true])])]
                 org repo) ->
         exists s, uses_reference e = VStr s
                   /\ third_party e = is_third_party s own.
Proof.
  exact (report_flags_are_the_classifier_verdicts Demo.server 5 (Some "secret")
           (Some (Some (VList [VStr "acme"]))) [] _ eq_refl).
Defined.
